(** * MedIA: the streaming chat session client ([useChat])

    A shallow embedding of the composable [useChat] of the front end
    (state [messages] and [isLoading], operations [sendMessage] and
    [clearMessages]) together with the pieces of the JavaScript platform it
    calls: [String.prototype.trim], [split], [startsWith], [slice],
    [TextDecoder.decode] in streaming mode, [JSON.parse], optional chaining,
    truthiness and string concatenation.

    Strings are sequences of bytes holding UTF-8 text (Rocq's [string]); the
    event loop is explicit: the suspended body of an [async] call is a
    [TaskState] that is resumed when the promise it awaits settles. *)

From Stdlib Require Import String Ascii List Bool Arith ZArith Lia.
Import ListNotations.
Set Warnings "-register-all".
Open Scope string_scope.
Open Scope nat_scope.

(** ** Strings of the platform *)

Module JS.

Definition code (c : ascii) : nat := nat_of_ascii c.
Definition byte (n : nat) : ascii := ascii_of_nat n.

Definition between (lo n hi : nat) : bool := (lo <=? n) && (n <=? hi).

Fixpoint bytes (l : list nat) : string :=
  match l with
  | [] => EmptyString
  | n :: r => String (byte n) (bytes r)
  end.

(** The double quote, kept apart so that literals below stay readable. *)
Definition dq : string := bytes [34].
Definition quoted (s : string) : string := dq ++ s ++ dq.

(** A string is truthy when it is not empty. *)
Definition truthy (s : string) : bool :=
  match s with
  | EmptyString => false
  | String _ _ => true
  end.

(** White space and line terminators of ECMAScript, by the length of their
    UTF-8 encoding: U+0009..U+000D and U+0020; U+00A0; U+1680,
    U+2000..U+200A, U+2028, U+2029, U+202F, U+205F, U+3000 and U+FEFF. *)
Definition ws1 (a : ascii) : bool :=
  between 9 (code a) 13 || (code a =? 32).

Definition ws2 (a b : ascii) : bool :=
  (code a =? 194) && (code b =? 160).

Definition ws3 (a b c : ascii) : bool :=
  let x := code a in
  let y := code b in
  let z := code c in
  (x =? 225) && (y =? 154) && (z =? 128)
  || (x =? 226) && (y =? 128)
     && (between 128 z 138 || (z =? 168) || (z =? 169) || (z =? 175))
  || (x =? 226) && (y =? 129) && (z =? 159)
  || (x =? 227) && (y =? 128) && (z =? 128)
  || (x =? 239) && (y =? 187) && (z =? 191).

Fixpoint trimStart (s : string) : string :=
  match s with
  | EmptyString => s
  | String a r1 =>
      if ws1 a then trimStart r1
      else
        match r1 with
        | EmptyString => s
        | String b r2 =>
            if ws2 a b then trimStart r2
            else
              match r2 with
              | EmptyString => s
              | String c r3 => if ws3 a b c then trimStart r3 else s
              end
        end
  end.

Fixpoint rev_onto (s acc : string) : string :=
  match s with
  | EmptyString => acc
  | String c r => rev_onto r (String c acc)
  end.

Definition reverse (s : string) : string := rev_onto s EmptyString.

(** [trimEnd] reads the bytes from the last one backwards. *)
Fixpoint trimReversed (s : string) : string :=
  match s with
  | EmptyString => s
  | String c r1 =>
      if ws1 c then trimReversed r1
      else
        match r1 with
        | EmptyString => s
        | String b r2 =>
            if ws2 b c then trimReversed r2
            else
              match r2 with
              | EmptyString => s
              | String a r3 => if ws3 a b c then trimReversed r3 else s
              end
        end
  end.

Definition trimEnd (s : string) : string := reverse (trimReversed (reverse s)).

Definition trim (s : string) : string := trimEnd (trimStart s).

(** [s.split('\n')]: never empty, one more piece than there are line feeds. *)
Fixpoint split_lines (s : string) : list string :=
  match s with
  | EmptyString => [EmptyString]
  | String c r =>
      if code c =? 10 then EmptyString :: split_lines r
      else
        match split_lines r with
        | l :: ls => String c l :: ls
        | [] => [String c EmptyString]
        end
  end.

Definition startsWith (s p : string) : bool := String.prefix p s.

(** [s.slice(n)] for [0 <= n]. *)
Fixpoint slice (n : nat) (s : string) : string :=
  match n, s with
  | 0, _ => s
  | S _, EmptyString => EmptyString
  | S k, String _ r => slice k r
  end.

End JS.

(** ** [TextDecoder] for UTF-8, in streaming mode *)

Module TextDecoder.

Import JS.

(** What the decoder keeps between two calls of [decode(value, {stream: true})]:
    whether the first code point went by (a leading byte order mark is
    dropped), how many continuation bytes the open sequence still needs, the
    bounds of the next one, and the bytes of the open sequence. *)
Record Decoder := {
  bomSeen : bool;
  needed : nat;
  lower : nat;
  upper : nat;
  pending : string
}.

Definition fresh (bom : bool) : Decoder :=
  {| bomSeen := bom; needed := 0; lower := 128; upper := 191;
     pending := EmptyString |}.

Definition newDecoder : Decoder := fresh false.

Definition BOM : string := bytes [239; 187; 191].
Definition REPLACEMENT : string := bytes [239; 191; 189].

(** One code point leaves the decoder. *)
Definition emit (bom : bool) (cp : string) : string :=
  if bom then cp else if String.eqb cp BOM then EmptyString else cp.

Definition lead (bom : bool) (b : ascii) : string * Decoder :=
  let n := code b in
  let one := String b EmptyString in
  if n <=? 127 then (emit bom one, fresh true)
  else if between 194 n 223 then
    (EmptyString,
     {| bomSeen := bom; needed := 1; lower := 128; upper := 191;
        pending := one |})
  else if between 224 n 239 then
    (EmptyString,
     {| bomSeen := bom; needed := 2;
        lower := if n =? 224 then 160 else 128;
        upper := if n =? 237 then 159 else 191;
        pending := one |})
  else if between 240 n 244 then
    (EmptyString,
     {| bomSeen := bom; needed := 3;
        lower := if n =? 240 then 144 else 128;
        upper := if n =? 244 then 143 else 191;
        pending := one |})
  else (emit bom REPLACEMENT, fresh true).

Definition feed (d : Decoder) (b : ascii) : string * Decoder :=
  match needed d with
  | 0 => lead (bomSeen d) b
  | S k =>
      if between (lower d) (code b) (upper d) then
        let p := pending d ++ String b EmptyString in
        match k with
        | 0 => (emit (bomSeen d) p, fresh true)
        | S _ =>
            (EmptyString,
             {| bomSeen := bomSeen d; needed := k; lower := 128; upper := 191;
                pending := p |})
        end
      else
        (* the open sequence is malformed; the byte is read again as a
           first byte *)
        let o1 := emit (bomSeen d) REPLACEMENT in
        let '(o2, d2) := lead true b in
        (o1 ++ o2, d2)
  end.

Fixpoint decode (d : Decoder) (value : string) : string * Decoder :=
  match value with
  | EmptyString => (EmptyString, d)
  | String b r =>
      let '(o, d1) := feed d b in
      let '(os, d2) := decode d1 r in
      (o ++ os, d2)
  end.

End TextDecoder.

(** ** [JSON.parse] *)

Module JSON.

Import JS.

(** Numbers keep their lexeme: their value is a double, which this
    development does not compute with. *)
Inductive Value :=
| JNull
| JBool (b : bool)
| JNumber (lexeme : string)
| JString (s : string)
| JArray (elements : list Value)
| JObject (members : list (string * Value)).

Inductive Token :=
| TLBrace | TRBrace | TLBracket | TRBracket | TColon | TComma
| TString (s : string)
| TNumber (lexeme : string)
| TTrue | TFalse | TNull.

(** *** Strings: raw bytes and [\uXXXX] code units *)

Inductive SItem :=
| Raw (c : ascii)
| Unit (u : N).

Definition nbyte (n : N) : ascii := ascii_of_N n.

Definition utf8 (n : N) : string :=
  (if n <? 128 then String (nbyte n) EmptyString
   else if n <? 2048 then
     String (nbyte (192 + n / 64)) (String (nbyte (128 + n mod 64)) EmptyString)
   else if n <? 65536 then
     String (nbyte (224 + n / 4096))
       (String (nbyte (128 + (n / 64) mod 64))
          (String (nbyte (128 + n mod 64)) EmptyString))
   else
     String (nbyte (240 + n / 262144))
       (String (nbyte (128 + (n / 4096) mod 64))
          (String (nbyte (128 + (n / 64) mod 64))
             (String (nbyte (128 + n mod 64)) EmptyString))))%N.

Definition highSurrogate (u : N) : bool := ((55296 <=? u) && (u <=? 56319))%N.
Definition lowSurrogate (u : N) : bool := ((56320 <=? u) && (u <=? 57343))%N.

(** A high surrogate followed by a low one is one code point; a lone
    surrogate has no UTF-8 form and is written with the three-byte pattern. *)
Fixpoint encode (l : list SItem) : string :=
  match l with
  | [] => EmptyString
  | Raw c :: r => String c (encode r)
  | Unit h :: r =>
      match r with
      | Unit lo :: r' =>
          if highSurrogate h && lowSurrogate lo
          then utf8 (65536 + (h - 55296) * 1024 + (lo - 56320))%N ++ encode r'
          else utf8 h ++ encode r
      | _ => utf8 h ++ encode r
      end
  end.

Definition hexval (c : ascii) : option N :=
  let n := code c in
  if between 48 n 57 then Some (N.of_nat (n - 48))
  else if between 65 n 70 then Some (N.of_nat (n - 55))
  else if between 97 n 102 then Some (N.of_nat (n - 87))
  else None.

(** *** Numbers: an optional minus sign; [0], or a digit from 1 to 9 and
    digits; optionally a point and at least one digit; optionally [e] or
    [E], an optional sign and at least one digit. *)

Definition is_digit (c : ascii) : bool := between 48 (code c) 57.

Fixpoint skip_digits (s : string) : string :=
  match s with
  | EmptyString => s
  | String c r => if is_digit c then skip_digits r else s
  end.

Definition digits1 (s : string) : option string :=
  match s with
  | EmptyString => None
  | String c r => if is_digit c then Some (skip_digits r) else None
  end.

Definition int_part (s : string) : option string :=
  match s with
  | EmptyString => None
  | String c r =>
      if code c =? 48 then Some r
      else if between 49 (code c) 57 then Some (skip_digits r)
      else None
  end.

Definition frac_part (s : string) : option string :=
  match s with
  | EmptyString => Some s
  | String c r => if code c =? 46 then digits1 r else Some s
  end.

Definition exp_part (s : string) : option string :=
  match s with
  | EmptyString => Some s
  | String c r =>
      if (code c =? 101) || (code c =? 69) then
        match r with
        | EmptyString => None
        | String d r' =>
            if (code d =? 43) || (code d =? 45) then digits1 r' else digits1 r
        end
      else Some s
  end.

Definition valid_number (s : string) : bool :=
  let unsigned :=
    match s with
    | String c r => if code c =? 45 then r else s
    | EmptyString => s
    end in
  match int_part unsigned with
  | None => false
  | Some r1 =>
      match frac_part r1 with
      | None => false
      | Some r2 =>
          match exp_part r2 with
          | Some EmptyString => true
          | _ => false
          end
      end
  end.

(** *** The lexer, one byte at a time *)

Inductive LexState :=
| LStart
| LString (acc : list SItem)
| LEscape (acc : list SItem)
| LUnicode (acc : list SItem) (k : nat) (u : N)
| LNumber (acc : string)
| LWord (acc : string).

Definition is_space (c : ascii) : bool :=
  let n := code c in (n =? 32) || (n =? 9) || (n =? 10) || (n =? 13).

Definition number_char (c : ascii) : bool :=
  let n := code c in
  is_digit c || (n =? 43) || (n =? 45) || (n =? 46) || (n =? 101) || (n =? 69).

Definition word_char (c : ascii) : bool := between 97 (code c) 122.

Definition start (c : ascii) : option (LexState * list Token) :=
  let n := code c in
  if is_space c then Some (LStart, [])
  else if n =? 123 then Some (LStart, [TLBrace])
  else if n =? 125 then Some (LStart, [TRBrace])
  else if n =? 91 then Some (LStart, [TLBracket])
  else if n =? 93 then Some (LStart, [TRBracket])
  else if n =? 58 then Some (LStart, [TColon])
  else if n =? 44 then Some (LStart, [TComma])
  else if n =? 34 then Some (LString [], [])
  else if (n =? 45) || is_digit c then Some (LNumber (String c EmptyString), [])
  else if word_char c then Some (LWord (String c EmptyString), [])
  else None.

Definition finish_number (acc : string) : option Token :=
  let lexeme := reverse acc in
  if valid_number lexeme then Some (TNumber lexeme) else None.

Definition finish_word (acc : string) : option Token :=
  let w := reverse acc in
  if String.eqb w "true" then Some TTrue
  else if String.eqb w "false" then Some TFalse
  else if String.eqb w "null" then Some TNull
  else None.

(** The byte that ends a number or a word is then read from [LStart]. *)
Definition after (t : option Token) (c : ascii) : option (LexState * list Token) :=
  match t, start c with
  | Some tok, Some (st, ts) => Some (st, tok :: ts)
  | _, _ => None
  end.

Definition lex_step (st : LexState) (c : ascii) : option (LexState * list Token) :=
  let n := code c in
  match st with
  | LStart => start c
  | LString acc =>
      if n =? 34 then Some (LStart, [TString (encode (rev acc))])
      else if n =? 92 then Some (LEscape acc, [])
      else if n <? 32 then None
      else Some (LString (Raw c :: acc), [])
  | LEscape acc =>
      if (n =? 34) || (n =? 92) || (n =? 47) then Some (LString (Raw c :: acc), [])
      else if n =? 98 then Some (LString (Raw (byte 8) :: acc), [])
      else if n =? 102 then Some (LString (Raw (byte 12) :: acc), [])
      else if n =? 110 then Some (LString (Raw (byte 10) :: acc), [])
      else if n =? 114 then Some (LString (Raw (byte 13) :: acc), [])
      else if n =? 116 then Some (LString (Raw (byte 9) :: acc), [])
      else if n =? 117 then Some (LUnicode acc 0 0%N, [])
      else None
  | LUnicode acc k u =>
      match hexval c with
      | None => None
      | Some h =>
          let u' := (16 * u + h)%N in
          if k =? 3 then Some (LString (Unit u' :: acc), [])
          else Some (LUnicode acc (S k) u', [])
      end
  | LNumber acc =>
      if number_char c then Some (LNumber (String c acc), [])
      else after (finish_number acc) c
  | LWord acc =>
      if word_char c then Some (LWord (String c acc), [])
      else after (finish_word acc) c
  end.

Definition lex_end (st : LexState) : option (list Token) :=
  match st with
  | LStart => Some []
  | LNumber acc => option_map (fun t => [t]) (finish_number acc)
  | LWord acc => option_map (fun t => [t]) (finish_word acc)
  | LString _ | LEscape _ | LUnicode _ _ _ => None
  end.

Fixpoint lex (st : LexState) (s : string) : option (list Token) :=
  match s with
  | EmptyString => lex_end st
  | String c r =>
      match lex_step st c with
      | None => None
      | Some (st', ts) =>
          match lex st' r with
          | None => None
          | Some rest => Some (ts ++ rest)%list
          end
      end
  end.

(** *** The parser, one token at a time, with the open containers on a stack *)

Inductive Frame :=
| FArray (acc : list Value)
| FMember (acc : list (string * Value)) (key : string).

Inductive Mode :=
| MValue
| MArrayStart
| MArrayNext (acc : list Value)
| MObjectStart
| MObjectNext (acc : list (string * Value))
| MKey (acc : list (string * Value))
| MColon (acc : list (string * Value)) (key : string)
| MDone (v : Value).

(** A value is complete: it goes to the container on top of the stack. *)
Definition complete (v : Value) (stack : list Frame) : Mode * list Frame :=
  match stack with
  | [] => (MDone v, [])
  | FArray acc :: st => (MArrayNext (v :: acc), st)
  | FMember acc key :: st => (MObjectNext ((key, v) :: acc), st)
  end.

Definition value_token (t : Token) (stack : list Frame) : option (Mode * list Frame) :=
  match t with
  | TString s => Some (complete (JString s) stack)
  | TNumber l => Some (complete (JNumber l) stack)
  | TTrue => Some (complete (JBool true) stack)
  | TFalse => Some (complete (JBool false) stack)
  | TNull => Some (complete JNull stack)
  | TLBracket => Some (MArrayStart, stack)
  | TLBrace => Some (MObjectStart, stack)
  | TRBrace | TRBracket | TColon | TComma => None
  end.

Definition parse_step (m : Mode) (stack : list Frame) (t : Token)
  : option (Mode * list Frame) :=
  match m with
  | MValue => value_token t stack
  | MArrayStart =>
      match t with
      | TRBracket => Some (complete (JArray []) stack)
      | _ => value_token t (FArray [] :: stack)
      end
  | MArrayNext acc =>
      match t with
      | TComma => Some (MValue, FArray acc :: stack)
      | TRBracket => Some (complete (JArray (rev acc)) stack)
      | _ => None
      end
  | MObjectStart =>
      match t with
      | TRBrace => Some (complete (JObject []) stack)
      | TString k => Some (MColon [] k, stack)
      | _ => None
      end
  | MObjectNext acc =>
      match t with
      | TComma => Some (MKey acc, stack)
      | TRBrace => Some (complete (JObject (rev acc)) stack)
      | _ => None
      end
  | MKey acc =>
      match t with
      | TString k => Some (MColon acc k, stack)
      | _ => None
      end
  | MColon acc k =>
      match t with
      | TColon => Some (MValue, FMember acc k :: stack)
      | _ => None
      end
  | MDone _ => None
  end.

Fixpoint parse_tokens (m : Mode) (stack : list Frame) (ts : list Token)
  : option Value :=
  match ts with
  | [] => match m with MDone v => Some v | _ => None end
  | t :: r =>
      match parse_step m stack t with
      | None => None
      | Some (m', stack') => parse_tokens m' stack' r
      end
  end.

(** [JSON.parse(text)]: [None] stands for the [SyntaxError] it throws. *)
Definition parse (text : string) : option Value :=
  match lex LStart text with
  | None => None
  | Some ts => parse_tokens MValue [] ts
  end.

End JSON.

(** ** Values read from a parsed payload *)

Module Access.

Import JS JSON.

(** A property read yields a value or [undefined], which is [None]. *)
Definition Maybe := option Value.

(** The last member of that name is the one [JSON.parse] keeps. *)
Fixpoint member (key : string) (ms : list (string * Value)) : Maybe :=
  match ms with
  | [] => None
  | (k, v) :: r =>
      match member key r with
      | Some v' => Some v'
      | None => if String.eqb k key then Some v else None
      end
  end.

(** [v.key] for [v] neither [null] nor [undefined], and for a [key] that no
    built-in prototype defines ([choices], [delta] and [content] here): only
    an object can have it. *)
Definition get (v : Value) (key : string) : Maybe :=
  match v with
  | JObject ms => member key ms
  | _ => None
  end.

(** [v[0]]: the first element of an array, the member ["0"] of an object,
    the first unit of a string (here its first byte: all that is read of it
    below is that it is a string). *)
Definition index0 (v : Value) : Maybe :=
  match v with
  | JArray (x :: _) => Some x
  | JArray [] => None
  | JObject ms => member "0" ms
  | JString (String c _) => Some (JString (String c EmptyString))
  | JString EmptyString => None
  | JNull | JBool _ | JNumber _ => None
  end.

(** [v?.k]: [undefined] when [v] is [null] or [undefined]. *)
Definition optional (v : Maybe) (k : Value -> Maybe) : Maybe :=
  match v with
  | None | Some JNull => None
  | Some x => k x
  end.

(** [parsed.choices?.[0]?.delta?.content]; the outer [None] is the
    [TypeError] of reading a property of [null]. *)
Definition tokenOf (parsed : Value) : option Maybe :=
  match parsed with
  | JNull => None
  | _ =>
      Some
        (optional (get parsed "choices") (fun choices =>
         optional (index0 choices) (fun first =>
         optional (get first "delta") (fun delta =>
         get delta "content"))))
  end.

Fixpoint join (sep : string) (l : list string) : string :=
  match l with
  | [] => EmptyString
  | [x] => x
  | x :: r => x ++ sep ++ join sep r
  end.

Section Numbers.

(** The value of a number is a double: whether it is zero and how it prints
    are taken from the platform. *)
Variable Number_isZero : string -> bool.
Variable Number_toString : string -> string.

Definition truthyValue (v : Maybe) : bool :=
  match v with
  | None | Some JNull => false
  | Some (JBool b) => b
  | Some (JNumber l) => negb (Number_isZero l)
  | Some (JString s) => truthy s
  | Some (JArray _) | Some (JObject _) => true
  end.

(** The strings of the elements, when every element has one. *)
Fixpoint sequence (l : list (option string)) : option (list string) :=
  match l with
  | [] => Some []
  | None :: _ => None
  | Some x :: r =>
      match sequence r with
      | Some xs => Some (x :: xs)
      | None => None
      end
  end.

(** What [content += token] appends; [None] is the [TypeError] of a value
    that has no primitive form.  A parsed object inherits [valueOf], which
    returns the object, and [toString], which returns [[object Object]]; a
    member named [toString] hides the inherited one and, being data, cannot
    be called: then neither method gives a primitive and the conversion
    throws.  An array is joined with commas, [null] elements as the empty
    string, the others converted in the same way. *)
Fixpoint toString (v : Value) : option string :=
  match v with
  | JNull => Some "null"
  | JBool true => Some "true"
  | JBool false => Some "false"
  | JNumber l => Some (Number_toString l)
  | JString s => Some s
  | JArray l =>
      option_map (join ",")
        (sequence
           (map (fun e => match e with
                          | JNull => Some EmptyString
                          | _ => toString e
                          end) l))
  | JObject members =>
      match member "toString" members with
      | Some _ => None
      | None => Some "[object Object]"
      end
  end.

End Numbers.

End Access.

(** ** The session: [useChat] *)

Module Chat.

Import JS JSON Access TextDecoder.

(** Modelled from the spec: the roles of the type [Message] of
    [@/types/chat], of which the source holds only the import. *)
Inductive Role := user | assistant | system.

(** Modelled from the spec: the type [Message] of [@/types/chat]:
    [{ id: string, role: user | assistant | system, content: string,
       timestamp: instant }]; the instant is kept as a number of
    milliseconds. *)
Record Message := {
  id : string;
  role : Role;
  content : string;
  timestamp : N
}.

(** An element of [messages] in the request body. *)
Record Wire := { wire_role : Role; wire_content : string }.

Record Request := { url : string; body : list Wire }.

(** What [console.error] receives. *)
Inductive ErrorValue :=
| Rejection (reason : string)
| HttpError (status : nat)
| StreamUnavailable.

(** The two refs of the composable, and what it did to the outside. *)
Record World := {
  messages : list Message;
  isLoading : bool;
  requests : list Request;
  console : list ErrorValue
}.

Definition API_URL : string := "/v1/chat/stream".

Definition PREAMBLE : Wire :=
  {| wire_role := system;
     wire_content := "Você é a MedIA, uma assistente médica virtual baseada no modelo Gemma. Sempre responda em português brasileiro. você lida com médicos registrados" |}.

Definition FALLBACK : string := "Desculpe, ocorreu um erro. Tente novamente.".

(** What [Date.now()], [Math.random()] and [new Date()] give one call of
    [createMessage]. *)
Record Stamp := { fresh_id : string; now : N }.

Definition createMessage (s : Stamp) (r : Role) (c : string) : Message :=
  {| id := fresh_id s; role := r; content := c; timestamp := now s |}.

Definition toWire (m : Message) : Wire :=
  {| wire_role := role m; wire_content := content m |}.

(** *** Arrays *)

Fixpoint findIndexFrom {A} (p : A -> bool) (l : list A) (k : Z) : Z :=
  match l with
  | [] => (-1)%Z
  | x :: r => if p x then k else findIndexFrom p r (k + 1)%Z
  end.

Definition findIndex {A} (p : A -> bool) (l : list A) : Z := findIndexFrom p l 0%Z.

(** [l[i]]: [undefined] out of range, so also at [-1]. *)
Definition at_index {A} (l : list A) (i : Z) : option A :=
  if (i <? 0)%Z then None else nth_error l (Z.to_nat i).

Fixpoint set_nth {A} (n : nat) (x : A) (l : list A) : list A :=
  match l, n with
  | [], _ => []
  | _ :: r, 0 => x :: r
  | y :: r, S k => y :: set_nth k x r
  end.

(** The object at [i] is changed in place. *)
Definition mutate_at {A} (l : list A) (i : Z) (x : A) : list A :=
  if (i <? 0)%Z then l else set_nth (Z.to_nat i) x l.

Definition hasId (aid : string) (m : Message) : bool := String.eqb (id m) aid.

Definition withContent (m : Message) (c : string) : Message :=
  {| id := id m; role := role m; content := c; timestamp := timestamp m |}.

(** [const idx = findIndex(..); const msg = messages[idx];
     if (msg) msg.content += token] *)
Definition appendToken (aid token : string) (ms : list Message) : list Message :=
  let idx := findIndex (hasId aid) ms in
  match at_index ms idx with
  | Some msg => mutate_at ms idx (withContent msg (content msg ++ token))
  | None => ms
  end.

(** The same in the [catch] block, with [msg.content = FALLBACK]. *)
Definition writeFallback (aid : string) (ms : list Message) : list Message :=
  let idx := findIndex (hasId aid) ms in
  match at_index ms idx with
  | Some msg => mutate_at ms idx (withContent msg FALLBACK)
  | None => ms
  end.

(** *** The suspended call *)

Inductive TaskState :=
| AwaitingFetch (assistantId : string)
| AwaitingRead (assistantId : string) (decoder : Decoder)
| Finished.

Inductive Settlement :=
| FetchRejected (reason : string)
| FetchResponse (status : nat) (hasBody : bool)
| ReadRejected (reason : string)
| ReadDone
| ReadValue (value : string).

Definition setMessages (w : World) (ms : list Message) : World :=
  {| messages := ms; isLoading := isLoading w;
     requests := requests w; console := console w |}.

Definition setLoading (w : World) (b : bool) : World :=
  {| messages := messages w; isLoading := b;
     requests := requests w; console := console w |}.

Definition fetch (w : World) (r : Request) : World :=
  {| messages := messages w; isLoading := isLoading w;
     requests := (requests w ++ [r])%list; console := console w |}.

Definition logError (w : World) (e : ErrorValue) : World :=
  {| messages := messages w; isLoading := isLoading w;
     requests := requests w; console := (console w ++ [e])%list |}.

(** The body of the request, from [messages] as it is when [fetch] is called. *)
Definition requestBody (ms : list Message) (text : string) : list Wire :=
  (PREAMBLE
   :: map toWire (filter (fun m => truthy (content m)) ms)
   ++ [{| wire_role := user; wire_content := text |}])%list.

(** [sendMessage] up to its first [await]. *)
Definition sendMessage (su sa : Stamp) (text : string) (w : World)
  : World * TaskState :=
  if negb (truthy (trim text)) || isLoading w then (w, Finished)
  else
    let w1 := setMessages w (messages w ++ [createMessage su user text])%list in
    let assistantMsg := createMessage sa assistant EmptyString in
    let w2 := setMessages w1 (messages w1 ++ [assistantMsg])%list in
    let w3 := setLoading w2 true in
    let w4 :=
      fetch w3 {| url := API_URL; body := requestBody (messages w3) text |} in
    (w4, AwaitingFetch (id assistantMsg)).

Definition clearMessages (w : World) : World := setMessages w [].

(** [catch] then [finally]. *)
Definition failed (aid : string) (e : ErrorValue) (w : World) : World * TaskState :=
  let w1 := setMessages w (writeFallback aid (messages w)) in
  let w2 := logError w1 e in
  (setLoading w2 false, Finished).

(** [finally] alone. *)
Definition completed (w : World) : World * TaskState :=
  (setLoading w false, Finished).

(** [response.ok] *)
Definition ok (status : nat) : bool := between 200 status 299.

Section Numbers.

Variable Number_isZero : string -> bool.
Variable Number_toString : string -> string.

(** The [try] block of a line: a payload that does not parse, a [null]
    payload, or a token that cannot be converted to a string, throws and is
    dropped by the empty [catch]. *)
Definition handleData (aid data : string) (ms : list Message) : list Message :=
  match JSON.parse data with
  | None => ms
  | Some parsed =>
      match tokenOf parsed with
      | None => ms
      | Some token =>
          if truthyValue Number_isZero token then
            match token with
            | Some v =>
                match toString Number_toString v with
                | Some s => appendToken aid s ms
                | None => ms
                end
            | None => ms
            end
          else ms
      end
  end.

(** [for (const line of lines)], with its [continue] and its [break]. *)
Fixpoint processLines (aid : string) (lines : list string) (ms : list Message)
  : list Message :=
  match lines with
  | [] => ms
  | line :: rest =>
      if negb (startsWith line "data: ") then processLines aid rest ms
      else
        let data := trim (slice 6 line) in
        if String.eqb data "[DONE]" then ms
        else processLines aid rest (handleData aid data ms)
  end.

(** The call is resumed with what the promise it awaits settled to. *)
Definition resume (t : TaskState) (s : Settlement) (w : World)
  : World * TaskState :=
  match t, s with
  | AwaitingFetch aid, FetchRejected reason => failed aid (Rejection reason) w
  | AwaitingFetch aid, FetchResponse status hasBody =>
      if negb (ok status) then failed aid (HttpError status) w
      else if negb hasBody then failed aid StreamUnavailable w
      else (w, AwaitingRead aid newDecoder)
  | AwaitingRead aid d, ReadRejected reason => failed aid (Rejection reason) w
  | AwaitingRead aid d, ReadDone => completed w
  | AwaitingRead aid d, ReadValue value =>
      let '(chunk, d') := decode d value in
      let lines := split_lines chunk in
      (setMessages w (processLines aid lines (messages w)), AwaitingRead aid d')
  | _, _ => (w, t)
  end.

(** *** The event loop *)

Record System := { world : World; tasks : list TaskState }.

Inductive Event :=
| CallSend (su sa : Stamp) (text : string)
| CallClear
| Settle (k : nat) (s : Settlement).

Definition step (s : System) (e : Event) : System :=
  match e with
  | CallSend su sa text =>
      let '(w, t) := sendMessage su sa text (world s) in
      {| world := w; tasks := (tasks s ++ [t])%list |}
  | CallClear => {| world := clearMessages (world s); tasks := tasks s |}
  | Settle k r =>
      match nth_error (tasks s) k with
      | Some t =>
          let '(w, t') := resume t r (world s) in
          {| world := w; tasks := set_nth k t' (tasks s) |}
      | None => s
      end
  end.

Definition run (s : System) (es : list Event) : System := fold_left step es s.

End Numbers.

Definition initial : System :=
  {| world := {| messages := []; isLoading := false; requests := []; console := [] |};
     tasks := [] |}.

End Chat.

(** ** Sample data and the vocabulary of the statements *)

Module Samples.

Import JS TextDecoder Chat.

Definition stampU : Stamp := {| fresh_id := "u1"; now := 1 |}.
Definition stampA : Stamp := {| fresh_id := "a1"; now := 2 |}.

Definition LF : string := bytes [10].

(** An event line of the stream whose delta carries [token]. *)
Definition delta (token : string) : string :=
  "data: {" ++ quoted "choices" ++ ":[{" ++ quoted "delta" ++ ":{"
  ++ quoted "content" ++ ":" ++ quoted token ++ "}}]}".

Definition line_done : string := "data: [DONE]".

Definition stream_Ola : string :=
  delta "Ol" ++ LF ++ delta "á" ++ LF ++ line_done ++ LF.

(** The session after [sendMessage("oi")] was accepted by a new session and
    the response arrived: the call awaits the first read. *)
Definition sent : World := fst (sendMessage stampU stampA "oi" (world initial)).

Definition streaming : System :=
  {| world := sent; tasks := [AwaitingRead "a1" newDecoder] |}.

(** The line of [delta "Ol"] cut in two, as two chunks of the transport
    would bring it. *)
Definition fragment1 : string :=
  "data: {" ++ quoted "choices" ++ ":[{" ++ dq ++ "del".

Definition fragment2 : string :=
  "ta" ++ dq ++ ":{" ++ quoted "content" ++ ":" ++ quoted "Ol" ++ "}}]}" ++ LF.

(** An instance of the two readings of a number, for the closed examples
    below, none of which holds a number: a lexeme prints as it is written
    and is zero when it is [0]. *)
Definition zeroLexeme (l : string) : bool := String.eqb l "0".
Definition asWritten (l : string) : string := l.

(** [m] is the message that the lookup by [aid] finds in [ms]: the first
    one of that id, between [before] and [after]. *)
Definition foundAt (aid : string) (ms before : list Message) (m : Message)
  (after : list Message) : Prop :=
  ms = (before ++ m :: after)%list
  /\ id m = aid
  /\ (forall x, In x before -> id x <> aid).

(** The settlements that make the call throw: a rejected [fetch], a
    response that is not [ok] or has no body, a rejected read. *)
Definition failure (t : TaskState) (s : Settlement) : Prop :=
  match t, s with
  | AwaitingFetch _, FetchRejected _ => True
  | AwaitingFetch _, FetchResponse status hasBody =>
      ok status = false \/ hasBody = false
  | AwaitingRead _ _, ReadRejected _ => True
  | _, _ => False
  end.

Definition assistantOf (t : TaskState) : option string :=
  match t with
  | AwaitingFetch aid | AwaitingRead aid _ => Some aid
  | Finished => None
  end.

(** What may happen while call [k] awaits a read and is not yet over: calls
    of the view, and chunks for call [k]. *)
Definition interleaved (k : nat) (e : Event) : Prop :=
  match e with
  | CallSend _ _ _ | CallClear => True
  | Settle j (ReadValue _) => j = k
  | Settle _ _ => False
  end.

(** The same session after the token ["Ol"] was streamed into the
    assistant message. *)
Definition partly : World := setMessages sent (appendToken "a1" "Ol" (messages sent)).

(** The calls of [sendMessage] that are not over. *)
Definition over (t : TaskState) : bool :=
  match t with
  | Finished => true
  | AwaitingFetch _ | AwaitingRead _ _ => false
  end.

Definition weight (t : TaskState) : nat := if over t then 0 else 1.

Fixpoint active_calls (l : list TaskState) : nat :=
  match l with
  | [] => 0
  | t :: r => weight t + active_calls r
  end.

(** [isLoading] counts the calls that are not over: one or none. *)
Definition balanced (s : System) : Prop :=
  active_calls (tasks s) = if isLoading (world s) then 1 else 0.

(** The states of a session: what events lead to from the initial one. *)
Definition reachable (isZero : string -> bool) (print : string -> string)
  (s : System) : Prop :=
  exists es, s = run isZero print initial es.

(** A session in the middle of a stream: the call was accepted, the
    response arrived, and a first chunk brought the token ["Ol"]. *)
Definition midstream : System :=
  run zeroLexeme asWritten initial
    [CallSend stampU stampA "oi";
     Settle 0 (FetchResponse 200 true);
     Settle 0 (ReadValue (delta "Ol" ++ LF))].

(** Call [k] awaits a read, and the messages were cleared under it. *)
Definition cleared (k : nat) (aid : string) (s : System) : Prop :=
  messages (world s) = []
  /\ isLoading (world s) = true
  /\ exists d, nth_error (tasks s) k = Some (AwaitingRead aid d).

End Samples.

(** ** The input box: [ChatInput] *)

Module ChatInput.

Import JS.

(** [handleSubmit]: from the text of the box, the text it is left with and
    what [emit('send', ..)] carries, if anything.  The resizing of the box,
    which follows on the next tick, only writes the height of the element and
    is left out. *)
Definition handleSubmit (text : string) : string * option string :=
  if negb (truthy (trim text)) then (text, None)
  else (EmptyString, Some (trim text)).

End ChatInput.

(** ** The view: [ChatView] and [ChatBubble] *)

Module ChatView.

Import JS Chat.

(** [handleSend(text)] calls [sendMessage(text)]. *)
Definition handleSend (su sa : Stamp) (text : string) (w : World)
  : World * TaskState :=
  sendMessage su sa text w.

(** The box submits, and the view sends what the box emitted. *)
Definition submit (su sa : Stamp) (text : string) (w : World)
  : string * (World * TaskState) :=
  let '(text', emitted) := ChatInput.handleSubmit text in
  match emitted with
  | Some t => (text', handleSend su sa t w)
  | None => (text', (w, Finished))
  end.

Definition isAssistant (m : Message) : bool :=
  match role m with
  | assistant => true
  | user | system => false
  end.

(** [isUser] of the bubble. *)
Definition isUser (m : Message) : bool :=
  match role m with
  | user => true
  | assistant | system => false
  end.

(** The [loading] prop of the bubble of the message at index [i]:
    [isLoading && msg.role === 'assistant'
       && msg === messages[messages.length - 1]]; the messages are distinct
    objects, so the last test is on the index. *)
Definition loadingProp (w : World) (i : nat) (msg : Message) : bool :=
  isLoading w && isAssistant msg && (S i =? List.length (messages w)).

(** The three dots of the bubble: [!isUser && !message.content && loading]. *)
Definition showsDots (msg : Message) (loading : bool) : bool :=
  negb (isUser msg) && negb (truthy (content msg)) && loading.

Definition dotsAt (w : World) (i : nat) : bool :=
  match nth_error (messages w) i with
  | Some msg => showsDots msg (loadingProp w i msg)
  | None => false
  end.

End ChatView.

(** ** The theme: [useDark] *)

Module DarkMode.

Import JS.

(** The ref [isDark], the item [theme] of [localStorage] and whether the
    root element has the class [dark]. *)
Record State := {
  isDark : bool;
  theme : option string;
  darkClass : bool
}.

(** [getDefaultTheme], from [localStorage.getItem('theme')] and what the
    media query [prefers-color-scheme: dark] matches. *)
Definition getDefaultTheme (saved : option string) (prefers : bool) : bool :=
  match saved with
  | Some s => if truthy s then String.eqb s "dark" else prefers
  | None => prefers
  end.

Definition applyTheme (st : State) : State :=
  {| isDark := isDark st;
     theme := Some (if isDark st then "dark" else "light");
     darkClass := isDark st |}.

(** What the module does when it is loaded: [isDark = ref(getDefaultTheme())]
    then [applyTheme()]. *)
Definition load (saved : option string) (prefers : bool) (classBefore : bool)
  : State :=
  applyTheme
    {| isDark := getDefaultTheme saved prefers;
       theme := saved;
       darkClass := classBefore |}.

(** The listener of the media query. *)
Definition onPreferenceChange (matches : bool) (st : State) : State :=
  match theme st with
  | Some s =>
      if truthy s then st
      else {| isDark := matches; theme := theme st; darkClass := darkClass st |}
  | None => {| isDark := matches; theme := theme st; darkClass := darkClass st |}
  end.

Definition toggle (st : State) : State :=
  {| isDark := negb (isDark st); theme := theme st; darkClass := darkClass st |}.

(** What can happen once the module is loaded.  The watcher of [isDark]
    calls [applyTheme]; when it does is left to the framework, so it is an
    event of its own. *)
Inductive Event :=
| Toggle
| WatcherRuns
| PreferenceChanges (matches : bool).

Definition step (st : State) (e : Event) : State :=
  match e with
  | Toggle => toggle st
  | WatcherRuns => applyTheme st
  | PreferenceChanges matches => onPreferenceChange matches st
  end.

Definition run (st : State) (es : list Event) : State := fold_left step es st.

Definition isPreference (e : Event) : bool :=
  match e with
  | PreferenceChanges _ => true
  | Toggle | WatcherRuns => false
  end.

(** A theme is stored, and it is not the empty string. *)
Definition themeKept (st : State) : Prop :=
  exists s, theme st = Some s /\ truthy s = true.

End DarkMode.

(** ** More vocabulary *)

Module Terms.

Import JS Chat.

(** A line of the chunk carries the payload [[DONE]]. *)
Definition isDone (line : string) : bool :=
  startsWith line "data: " && String.eqb (trim (slice 6 line)) "[DONE]".

Definition stops (lines : list string) : bool := existsb isDone lines.

(** The roles go by pairs: a user message, then an assistant message. *)
Fixpoint paired (l : list Role) : bool :=
  match l with
  | [] => true
  | user :: assistant :: r => paired r
  | _ => false
  end.

(** A request as the session issues them: to the one endpoint, the preamble
    first and the only system message, no message of empty content. *)
Definition wellFormed (r : Request) : Prop :=
  url r = API_URL
  /\ exists rest,
       body r = PREAMBLE :: rest
       /\ Forall (fun x => wire_role x <> system /\ wire_content x <> EmptyString)
            rest.

(** What of a message is fixed when it is created. *)
Definition frame (m : Message) : string * Role * N :=
  (id m, role m, timestamp m).

(** The messages go by pairs and the requests issued are well formed. *)
Definition sound (s : System) : Prop :=
  paired (map role (messages (world s))) = true
  /\ Forall wellFormed (requests (world s)).

(** A session whose one call failed: the response had status 503 and no
    body. *)
Definition afterFailure : System :=
  run Samples.zeroLexeme Samples.asWritten initial
    [CallSend Samples.stampU Samples.stampA "oi";
     Settle 0 (FetchResponse 503 false)].

(** The text begins with white space, as [trimStart] sees it. *)
Definition startsWs (s : string) : bool :=
  match s with
  | EmptyString => false
  | String a r1 =>
      ws1 a
      || match r1 with
         | EmptyString => false
         | String b r2 =>
             ws2 a b
             || match r2 with
                | EmptyString => false
                | String c _ => ws3 a b c
                end
         end
  end.

(** The same for the reversed text that [trimEnd] reads. *)
Definition startsWsReversed (s : string) : bool :=
  match s with
  | EmptyString => false
  | String c r1 =>
      ws1 c
      || match r1 with
         | EmptyString => false
         | String b r2 =>
             ws2 b c
             || match r2 with
                | EmptyString => false
                | String a _ => ws3 a b c
                end
         end
  end.

End Terms.

(** * Properties of the session *)

Module ChatSpec.

Import JS JSON Access TextDecoder Chat Samples.

(** ** The platform, on examples *)

Example trim_unicode :
  trim (" " ++ bytes [194; 160; 9] ++ "a b" ++ bytes [226; 128; 168; 10; 239; 187; 191])
  = "a b".
Proof. reflexivity. Qed.

Example trim_blank : trim (bytes [32; 13; 10; 227; 128; 128]) = EmptyString.
Proof. reflexivity. Qed.

Example split_trailing : split_lines ("a" ++ LF ++ "b" ++ LF) = ["a"; "b"; EmptyString].
Proof. reflexivity. Qed.

Example split_empty : split_lines EmptyString = [EmptyString].
Proof. reflexivity. Qed.

(** A character cut by the transport is held back until its last byte. *)
Example decode_cut_character :
  let '(o1, d1) := decode newDecoder (bytes [79; 108; 195]) in
  let '(o2, d2) := decode d1 (bytes [161]) in
  o1 = "Ol" /\ o2 = "á" /\ d2 = fresh true.
Proof. vm_compute. repeat split. Qed.

Example decode_malformed :
  fst (decode newDecoder (bytes [239; 187; 191; 65; 255; 226; 66]))
  = "A" ++ REPLACEMENT ++ REPLACEMENT ++ "B".
Proof. vm_compute. reflexivity. Qed.

Lemma decode_append (d : Decoder) (a b : string) :
  decode d (a ++ b)
  = let '(o1, d1) := decode d a in
    let '(o2, d2) := decode d1 b in
    (o1 ++ o2, d2).
Proof.
  revert d. induction a as [|c a IH]; intros d; cbn [append decode].
  - now destruct (decode d b).
  - destruct (feed d c) as [o d1]. rewrite IH.
    destruct (decode d1 a) as [o1 d2]. destruct (decode d2 b) as [o2 d3].
    f_equal. clear. induction o as [|x o IHo]; simpl; [|rewrite IHo]; reflexivity.
Qed.

Example parse_delta :
  JSON.parse (trim (slice 6 (delta "Ol")))
  = Some (JObject [("choices",
            JArray [JObject [("delta", JObject [("content", JString "Ol")])]])]).
Proof. vm_compute. reflexivity. Qed.

Example parse_values :
  JSON.parse (" [1, -2.5e+10 ,true,false,null, {}, [[]], "
              ++ quoted "a\ná😀\/" ++ "] ")
  = Some (JArray [JNumber "1"; JNumber "-2.5e+10"; JBool true; JBool false;
                  JNull; JObject []; JArray [JArray []];
                  JString ("a" ++ LF ++ "á😀/")]).
Proof. vm_compute. reflexivity. Qed.

Example parse_escapes :
  JSON.parse (quoted "\u00e1\ud83d\ude00\t") = Some (JString ("á😀" ++ bytes [9])).
Proof. vm_compute. reflexivity. Qed.

Example parse_rejects :
  map JSON.parse
    ["not-json"; "[DONE]"; "[1,]"; "{,}"; "01"; "1 2"; EmptyString; "1."; ".5";
     "+5"; "-"; "[1"; "nul"; "truefalse"; quoted ("a" ++ LF); dq ++ "a";
     "{" ++ quoted "a" ++ " 1}"; quoted "\x"; quoted "\u12"]
  = repeat None 19.
Proof. vm_compute. reflexivity. Qed.

Example token_shapes :
  map (fun text => option_map tokenOf (JSON.parse text))
    ["null"; "5"; "{}"; "{" ++ quoted "choices" ++ ":[]}";
     "{" ++ quoted "choices" ++ ":[{}]}";
     "{" ++ quoted "choices" ++ ":[{" ++ quoted "delta" ++ ":null}]}";
     "{" ++ quoted "choices" ++ ":[{" ++ quoted "delta" ++ ":{}}]}";
     "{" ++ quoted "choices" ++ ":[{" ++ quoted "delta" ++ ":{"
       ++ quoted "content" ++ ":" ++ quoted EmptyString ++ "}}]}"]
  = [Some None; Some (Some None); Some (Some None); Some (Some None);
     Some (Some None); Some (Some None); Some (Some None);
     Some (Some (Some (JString EmptyString)))].
Proof. vm_compute. reflexivity. Qed.

(** ** Arrays: lookup by identity *)

Section Arrays.

Context {A : Type} (p : A -> bool).

Lemma findIndexFrom_first (before : list A) (x : A) (after : list A) (k : Z) :
  (forall y, In y before -> p y = false) ->
  p x = true ->
  findIndexFrom p (before ++ x :: after)%list k
  = (k + Z.of_nat (List.length before))%Z.
Proof.
  revert k.
  induction before as [|y before IH]; intros k Hno Hx; simpl.
  - rewrite Hx. lia.
  - rewrite (Hno y (or_introl eq_refl)).
    rewrite IH; [lia | intros z Hz; apply Hno; now right | exact Hx].
Qed.

Lemma findIndexFrom_absent (l : list A) (k : Z) :
  (forall y, In y l -> p y = false) ->
  findIndexFrom p l k = (-1)%Z.
Proof.
  revert k.
  induction l as [|y l IH]; intros k Hno; simpl; trivial.
  rewrite (Hno y (or_introl eq_refl)).
  apply IH. intros z Hz. apply Hno. now right.
Qed.

Lemma at_index_middle (before : list A) (x : A) (after : list A) :
  at_index (before ++ x :: after)%list (Z.of_nat (List.length before)) = Some x.
Proof.
  unfold at_index.
  destruct (Z.ltb_spec (Z.of_nat (List.length before)) 0) as [H|_]; [lia|].
  rewrite Nat2Z.id.
  induction before as [|y before IH]; simpl; trivial.
Qed.

Lemma set_nth_middle (before : list A) (x y : A) (after : list A) :
  set_nth (List.length before) y (before ++ x :: after)%list
  = (before ++ y :: after)%list.
Proof.
  induction before as [|z before IH]; simpl; trivial.
  now rewrite IH.
Qed.

Lemma mutate_at_middle (before : list A) (x y : A) (after : list A) :
  mutate_at (before ++ x :: after)%list (Z.of_nat (List.length before)) y
  = (before ++ y :: after)%list.
Proof.
  unfold mutate_at.
  destruct (Z.ltb_spec (Z.of_nat (List.length before)) 0) as [H|_]; [lia|].
  rewrite Nat2Z.id. apply set_nth_middle.
Qed.

End Arrays.

Lemma hasId_true (aid : string) (m : Message) : id m = aid -> hasId aid m = true.
Proof. intros <-. apply String.eqb_refl. Qed.

Lemma hasId_false (aid : string) (m : Message) : id m <> aid -> hasId aid m = false.
Proof. intros H. now apply String.eqb_neq. Qed.

Lemma findIndex_foundAt aid ms before m after :
  foundAt aid ms before m after ->
  findIndex (hasId aid) ms = Z.of_nat (List.length before).
Proof.
  unfold foundAt. intros (-> & Hid & Hno). unfold findIndex.
  rewrite findIndexFrom_first; trivial.
  - intros y Hy. apply hasId_false. now apply Hno.
  - now apply hasId_true.
Qed.

Lemma appendToken_foundAt aid token ms before m after :
  foundAt aid ms before m after ->
  appendToken aid token ms
  = (before ++ withContent m (content m ++ token) :: after)%list.
Proof.
  intros H. unfold appendToken.
  rewrite (findIndex_foundAt _ _ _ _ _ H).
  destruct H as (-> & _ & _).
  rewrite at_index_middle. apply mutate_at_middle.
Qed.

Lemma writeFallback_foundAt aid ms before m after :
  foundAt aid ms before m after ->
  writeFallback aid ms = (before ++ withContent m FALLBACK :: after)%list.
Proof.
  intros H. unfold writeFallback.
  rewrite (findIndex_foundAt _ _ _ _ _ H).
  destruct H as (-> & _ & _).
  rewrite at_index_middle. apply mutate_at_middle.
Qed.

Lemma foundAt_after_append aid ms before m after token :
  foundAt aid ms before m after ->
  foundAt aid (appendToken aid token ms) before
    (withContent m (content m ++ token)) after.
Proof.
  intros H. rewrite (appendToken_foundAt _ _ _ _ _ _ H).
  destruct H as (_ & Hid & Hno). repeat split; trivial.
Qed.

(** Nothing of that id: the index is [-1], the element [undefined], and the
    guarded write does nothing. *)
Lemma lookup_absent aid ms :
  (forall x, In x ms -> id x <> aid) ->
  findIndex (hasId aid) ms = (-1)%Z
  /\ at_index ms (findIndex (hasId aid) ms) = None.
Proof.
  intros Hno.
  assert (E : findIndex (hasId aid) ms = (-1)%Z).
  { apply findIndexFrom_absent. intros y Hy. apply hasId_false. now apply Hno. }
  rewrite E. split; trivial.
Qed.

Lemma appendToken_absent aid token ms :
  (forall x, In x ms -> id x <> aid) -> appendToken aid token ms = ms.
Proof.
  intros Hno. unfold appendToken.
  now rewrite (proj2 (lookup_absent aid ms Hno)).
Qed.

Lemma writeFallback_absent aid ms :
  (forall x, In x ms -> id x <> aid) -> writeFallback aid ms = ms.
Proof.
  intros Hno. unfold writeFallback.
  now rewrite (proj2 (lookup_absent aid ms Hno)).
Qed.

(** ** [sendMessage], up to its first [await] *)

Lemma truthy_false (s : string) : truthy s = false <-> s = EmptyString.
Proof. destruct s; simpl; split; congruence. Qed.

Lemma sendMessage_accepted su sa text w :
  isLoading w = false ->
  trim text <> EmptyString ->
  sendMessage su sa text w
  = ({| messages :=
          (messages w
           ++ [createMessage su user text; createMessage sa assistant EmptyString])%list;
        isLoading := true;
        requests :=
          (requests w
           ++ [{| url := API_URL;
                  body :=
                    requestBody
                      (messages w
                       ++ [createMessage su user text;
                           createMessage sa assistant EmptyString])%list text |}])%list;
        console := console w |},
     AwaitingFetch (fresh_id sa)).
Proof.
  intros Hidle Htext. unfold sendMessage.
  rewrite Hidle.
  destruct (truthy (trim text)) eqn:E.
  - simpl. now rewrite <- !app_assoc.
  - apply truthy_false in E. contradiction.
Qed.

Lemma trim_nonempty_nonempty text : trim text <> EmptyString -> truthy text = true.
Proof. destruct text; trivial. intros H. now elim H. Qed.

Lemma filter_app_truthy (ms : list Message) (u a : Message) :
  truthy (content u) = true ->
  content a = EmptyString ->
  filter (fun m => truthy (content m)) (ms ++ [u; a])%list
  = (filter (fun m => truthy (content m)) ms ++ [u])%list.
Proof.
  intros Hu Ha. rewrite filter_app. simpl. now rewrite Hu, Ha.
Qed.

(** With ids that are new, the assistant message that an accepted call
    pushed is the one the lookup by its id finds. *)
Lemma sendMessage_foundAt su sa text w :
  isLoading w = false ->
  trim text <> EmptyString ->
  (forall x, In x (messages w) -> id x <> fresh_id sa) ->
  fresh_id su <> fresh_id sa ->
  foundAt (fresh_id sa) (messages (fst (sendMessage su sa text w)))
    (messages w ++ [createMessage su user text])%list
    (createMessage sa assistant EmptyString) [].
Proof.
  intros Hidle Htext Hnew Hne.
  rewrite sendMessage_accepted by trivial. cbn [fst messages].
  split; [now rewrite <- app_assoc|]. split; [reflexivity|].
  intros x Hx. apply in_app_or in Hx. destruct Hx as [Hx|[<-|[]]]; auto.
Qed.

(** Without that, the lookup stops at the first message of the id: here the
    token goes to the user message. *)
Example colliding_ids :
  map content
    (appendToken "a1" "Ol"
       [{| id := "a1"; role := user; content := "oi"; timestamp := 1 |};
        {| id := "a1"; role := assistant; content := EmptyString; timestamp := 2 |}])
  = ["oiOl"; EmptyString].
Proof. reflexivity. Qed.

(** C1. The body of the request that an accepted [sendMessage] issues is the
    fixed system preamble, then the earlier messages of non-empty content as
    role and content pairs, then the new user text TWICE: once for the user
    message that was pushed before [fetch] was called, once for the explicit
    last element. *)
Theorem sendMessage_body_repeats_text su sa text w :
  isLoading w = false ->
  trim text <> EmptyString ->
  requests (fst (sendMessage su sa text w))
  = (requests w
     ++ [{| url := API_URL;
            body :=
              (PREAMBLE
               :: map toWire (filter (fun m => truthy (content m)) (messages w))
               ++ [{| wire_role := user; wire_content := text |};
                   {| wire_role := user; wire_content := text |}])%list |}])%list.
Proof.
  intros Hidle Htext.
  rewrite sendMessage_accepted by trivial. simpl.
  unfold requestBody.
  rewrite filter_app_truthy; trivial.
  - rewrite map_app, <- app_assoc. reflexivity.
  - simpl. now apply trim_nonempty_nonempty.
Qed.

Lemma sendMessage_body_repeats_text_witness :
  requests (fst (sendMessage stampU stampA "oi" (world initial)))
  = [{| url := API_URL;
        body := [PREAMBLE;
                 {| wire_role := user; wire_content := "oi" |};
                 {| wire_role := user; wire_content := "oi" |}] |}].
Proof.
  apply (sendMessage_body_repeats_text stampU stampA "oi" (world initial)).
  - reflexivity.
  - vm_compute. discriminate.
Defined.

(** C4, as stated, fails: the content of the user message is the text as it
    was passed, not its trim. *)
Lemma sendMessage_content_not_trimmed :
  let text := " oi " in
  let w := world initial in
  isLoading w = false
  /\ trim text <> EmptyString
  /\ ~ (exists u a,
          messages (fst (sendMessage stampU stampA text w))
          = (messages w ++ [u; a])%list
          /\ role u = user /\ content u = trim text
          /\ role a = assistant /\ content a = EmptyString).
Proof.
  split; [reflexivity|]. split; [vm_compute; discriminate|].
  intros (u & a & Hms & _ & Hc & _).
  vm_compute in Hms. injection Hms as <- _.
  vm_compute in Hc. discriminate.
Qed.

(** C4, amended. An accepted [sendMessage] has, when it suspends at its
    first [await], appended exactly two messages: a user message whose
    content is the text as passed (so the trimmed text whenever the caller
    passes a trimmed one, as [ChatInput] does), then an assistant message of
    empty content; [isLoading] is true. *)
Theorem sendMessage_appends_pair su sa text w :
  isLoading w = false ->
  trim text <> EmptyString ->
  let '(w', t) := sendMessage su sa text w in
  messages w'
  = (messages w
     ++ [{| id := fresh_id su; role := user; content := text; timestamp := now su |};
         {| id := fresh_id sa; role := assistant; content := EmptyString;
            timestamp := now sa |}])%list
  /\ isLoading w' = true
  /\ t = AwaitingFetch (fresh_id sa)
  /\ (trim text = text ->
      exists u, nth_error (messages w') (List.length (messages w)) = Some u
                /\ content u = trim text).
Proof.
  intros Hidle Htext.
  rewrite sendMessage_accepted by trivial. simpl.
  repeat split.
  intros Htrim.
  exists (createMessage su user text). split.
  - rewrite nth_error_app2, Nat.sub_diag by lia. reflexivity.
  - simpl. now rewrite Htrim.
Qed.

Lemma sendMessage_appends_pair_witness :
  let '(w', t) := sendMessage stampU stampA "oi" (world initial) in
  messages w'
  = [{| id := "u1"; role := user; content := "oi"; timestamp := 1 |};
     {| id := "a1"; role := assistant; content := EmptyString; timestamp := 2 |}]
  /\ isLoading w' = true
  /\ t = AwaitingFetch "a1"
  /\ (trim "oi" = "oi" ->
      exists u, nth_error (messages w') 0 = Some u /\ content u = trim "oi").
Proof.
  apply (sendMessage_appends_pair stampU stampA "oi" (world initial)).
  - reflexivity.
  - vm_compute. discriminate.
Defined.

Lemma sendMessage_rejected su sa text w :
  trim text = EmptyString \/ isLoading w = true ->
  sendMessage su sa text w = (w, Finished).
Proof.
  intros H. unfold sendMessage. destruct H as [H|H]; rewrite H; simpl; trivial.
  now rewrite orb_true_r.
Qed.

(** C5. A call of [sendMessage] with a text that trims to the empty string,
    or made while [isLoading] is true, returns at once: the messages, the
    requests issued and [isLoading] are what they were. *)
Theorem sendMessage_noop su sa text w :
  trim text = EmptyString \/ isLoading w = true ->
  sendMessage su sa text w = (w, Finished)
  /\ List.length (messages (fst (sendMessage su sa text w)))
     = List.length (messages w)
  /\ requests (fst (sendMessage su sa text w)) = requests w
  /\ isLoading (fst (sendMessage su sa text w)) = isLoading w.
Proof.
  intros H. rewrite (sendMessage_rejected su sa text w H). repeat split.
Qed.

Lemma sendMessage_noop_witness :
  sendMessage stampU stampA (bytes [32; 9; 10; 194; 160]) (world initial)
  = (world initial, Finished)
  /\ sendMessage stampU stampA "oi"
       (fst (sendMessage stampU stampA "oi" (world initial)))
     = (fst (sendMessage stampU stampA "oi" (world initial)), Finished).
Proof.
  split.
  - apply (sendMessage_noop stampU stampA (bytes [32; 9; 10; 194; 160])
             (world initial)).
    left. reflexivity.
  - apply (sendMessage_noop stampU stampA "oi"
             (fst (sendMessage stampU stampA "oi" (world initial)))).
    right. reflexivity.
Defined.

(** C8. [clearMessages] leaves no message and does not touch [isLoading]. *)
Theorem clearMessages_empties (w : World) :
  messages (clearMessages w) = []
  /\ isLoading (clearMessages w) = isLoading w.
Proof. split; reflexivity. Qed.

(** ** The stream *)

Lemma append_assoc (a b c : string) : (a ++ b) ++ c = a ++ (b ++ c).
Proof. induction a as [|x a IH]; simpl; [|rewrite IH]; reflexivity. Qed.

Lemma startsWith_slice (p line : string) :
  startsWith line p = true -> line = p ++ slice (String.length p) line.
Proof.
  unfold startsWith. revert line.
  induction p as [|c p IH]; intros line H; simpl.
  - reflexivity.
  - destruct line as [|c' line]; simpl in H; [discriminate|].
    destruct (ascii_dec c c') as [<-|_]; [|discriminate].
    now rewrite <- IH.
Qed.

Lemma startsWith_data (line : string) :
  startsWith line "data: " = true -> line = "data: " ++ slice 6 line.
Proof. apply (startsWith_slice "data: "). Qed.

Lemma slice_data (r : string) : slice 6 ("data: " ++ r) = r.
Proof. reflexivity. Qed.

Lemma startsWith_data_append (r : string) : startsWith ("data: " ++ r) "data: " = true.
Proof. unfold startsWith. simpl. now destruct r. Qed.

Lemma nth_error_set_nth {A} (l : list A) (k : nat) (x y : A) :
  nth_error l k = Some y -> nth_error (set_nth k x l) k = Some x.
Proof.
  revert k. induction l as [|z l IH]; intros [|k]; simpl; try discriminate; auto.
Qed.

Section Stream.

Variable Number_isZero : string -> bool.
Variable Number_toString : string -> string.

Local Abbreviation handleData := (Chat.handleData Number_isZero Number_toString).
Local Abbreviation processLines := (Chat.processLines Number_isZero Number_toString).
Local Abbreviation resume := (Chat.resume Number_isZero Number_toString).
Local Abbreviation step := (Chat.step Number_isZero Number_toString).
Local Abbreviation run := (Chat.run Number_isZero Number_toString).
Local Abbreviation reachable := (Samples.reachable Number_isZero Number_toString).

(** *** One line *)

Lemma processLines_cons aid line rest ms :
  processLines aid (line :: rest) ms
  = if negb (startsWith line "data: ") then processLines aid rest ms
    else if String.eqb (trim (slice 6 line)) "[DONE]" then ms
    else processLines aid rest (handleData aid (trim (slice 6 line)) ms).
Proof. reflexivity. Qed.

Lemma processLines_skip aid line rest ms :
  startsWith line "data: " = false ->
  processLines aid (line :: rest) ms = processLines aid rest ms.
Proof. intros H. rewrite processLines_cons. now rewrite H. Qed.

Lemma processLines_done aid line rest ms :
  startsWith line "data: " = true ->
  trim (slice 6 line) = "[DONE]" ->
  processLines aid (line :: rest) ms = ms.
Proof. intros H1 H2. rewrite processLines_cons. now rewrite H1, H2. Qed.

Lemma processLines_data aid line rest ms :
  startsWith line "data: " = true ->
  trim (slice 6 line) <> "[DONE]" ->
  processLines aid (line :: rest) ms
  = processLines aid rest (handleData aid (trim (slice 6 line)) ms).
Proof.
  intros H1 H2. rewrite processLines_cons. rewrite H1. simpl negb. cbv iota.
  apply String.eqb_neq in H2. now rewrite H2.
Qed.

Lemma handleData_unparsed aid data ms :
  JSON.parse data = None -> handleData aid data ms = ms.
Proof. intros H. unfold Chat.handleData. now rewrite H. Qed.

Lemma handleData_string aid data parsed s ms :
  JSON.parse data = Some parsed ->
  tokenOf parsed = Some (Some (JString s)) ->
  s <> EmptyString ->
  handleData aid data ms = appendToken aid s ms.
Proof.
  intros Hp Ht Hs. unfold Chat.handleData. rewrite Hp, Ht. simpl.
  destruct s; [contradiction|reflexivity].
Qed.

(** Whatever the payload, the messages change at most by an append to the
    message that the lookup finds. *)
Lemma handleData_cases aid data ms :
  handleData aid data ms = ms
  \/ exists token, handleData aid data ms = appendToken aid token ms.
Proof.
  unfold Chat.handleData.
  destruct (JSON.parse data) as [parsed|]; [|now left].
  destruct (tokenOf parsed) as [token|]; [|now left].
  destruct (truthyValue Number_isZero token); [|now left].
  destruct token as [v|]; [|now left].
  destruct (toString Number_toString v) as [s|]; [|now left].
  right. now exists s.
Qed.

Lemma handleData_absent aid data ms :
  (forall x, In x ms -> id x <> aid) -> handleData aid data ms = ms.
Proof.
  intros Hno.
  destruct (handleData_cases aid data ms) as [E|(token & E)]; rewrite E; trivial.
  now apply appendToken_absent.
Qed.

Lemma processLines_absent aid lines ms :
  (forall x, In x ms -> id x <> aid) -> processLines aid lines ms = ms.
Proof.
  intros Hno. induction lines as [|line rest IH]; [reflexivity|].
  rewrite processLines_cons.
  destruct (startsWith line "data: "); simpl negb; cbv iota; trivial.
  destruct (String.eqb (trim (slice 6 line)) "[DONE]"); trivial.
  now rewrite handleData_absent.
Qed.

Lemma resume_read_value aid d value w :
  resume (AwaitingRead aid d) (ReadValue value) w
  = (setMessages w
       (processLines aid (split_lines (fst (decode d value))) (messages w)),
     AwaitingRead aid (snd (decode d value))).
Proof. simpl. now destruct (decode d value). Qed.

(** C2. In the decoding of the stream, a line that does not start with
    ["data: "] contributes nothing; of a line that does, the payload is what
    follows the prefix, trimmed; the payload ["[DONE]"] ends the lines of the
    chunk being read, the lines after it are not looked at; and whatever a
    chunk held, the call then awaits the next read, whose chunk is processed
    in the same way, until the read reports the end of the stream. *)
Theorem stream_line_protocol aid line rest ms :
  (startsWith line "data: " = false ->
   processLines aid (line :: rest) ms = processLines aid rest ms)
  /\ (startsWith line "data: " = true ->
      line = "data: " ++ slice 6 line
      /\ (trim (slice 6 line) = "[DONE]" ->
          processLines aid (line :: rest) ms = ms)
      /\ (trim (slice 6 line) <> "[DONE]" ->
          processLines aid (line :: rest) ms
          = processLines aid rest (handleData aid (trim (slice 6 line)) ms)))
  /\ (forall d value w,
        resume (AwaitingRead aid d) (ReadValue value) w
        = (setMessages w
             (processLines aid (split_lines (fst (decode d value))) (messages w)),
           AwaitingRead aid (snd (decode d value))))
  /\ (forall d w,
        resume (AwaitingRead aid d) ReadDone w = (setLoading w false, Finished)).
Proof.
  split; [apply processLines_skip|].
  split.
  - intros H. split; [now apply startsWith_data|].
    split; intros H'.
    + now apply processLines_done.
    + now apply processLines_data.
  - split; intros; [apply resume_read_value|reflexivity].
Qed.

(** C7. A line whose payload [JSON.parse] rejects is dropped: the messages
    are what they were, the lines after it are processed, and the read that
    brought it neither fails the call nor logs anything. *)
Theorem malformed_payload_dropped aid line rest ms :
  startsWith line "data: " = true ->
  trim (slice 6 line) <> "[DONE]" ->
  JSON.parse (trim (slice 6 line)) = None ->
  handleData aid (trim (slice 6 line)) ms = ms
  /\ processLines aid (line :: rest) ms = processLines aid rest ms
  /\ (forall d value w,
        let '(w', t) := resume (AwaitingRead aid d) (ReadValue value) w in
        t <> Finished /\ console w' = console w /\ isLoading w' = isLoading w).
Proof.
  intros H1 H2 H3. split; [now apply handleData_unparsed|]. split.
  - rewrite processLines_data by trivial. now rewrite handleData_unparsed.
  - intros d value w. rewrite resume_read_value. simpl. repeat split. discriminate.
Qed.

(** *** Tokens *)

Lemma handleData_token aid data parsed v s ms :
  JSON.parse data = Some parsed ->
  tokenOf parsed = Some (Some v) ->
  truthyValue Number_isZero (Some v) = true ->
  toString Number_toString v = Some s ->
  handleData aid data ms = appendToken aid s ms.
Proof.
  intros Hp Ht Hv Hs. unfold Chat.handleData. now rewrite Hp, Ht, Hv, Hs.
Qed.

Lemma handleData_unconvertible aid data parsed v ms :
  JSON.parse data = Some parsed ->
  tokenOf parsed = Some (Some v) ->
  toString Number_toString v = None ->
  handleData aid data ms = ms.
Proof.
  intros Hp Ht Hs. unfold Chat.handleData. rewrite Hp, Ht, Hs.
  now destruct (truthyValue Number_isZero (Some v)).
Qed.

Lemma handleData_no_token aid data parsed token ms :
  JSON.parse data = Some parsed ->
  tokenOf parsed = Some token ->
  truthyValue Number_isZero token = false ->
  handleData aid data ms = ms.
Proof.
  intros Hp Ht Hv. unfold Chat.handleData. now rewrite Hp, Ht, Hv.
Qed.

(** The payload is closed: what it parses to is computed. *)
Lemma handleData_computed aid data s ms :
  match JSON.parse data with
  | Some parsed => tokenOf parsed
  | None => None
  end = Some (Some (JString s)) ->
  s <> EmptyString ->
  handleData aid data ms = appendToken aid s ms.
Proof.
  intros H Hs.
  destruct (JSON.parse data) as [parsed|] eqn:Hp; [|discriminate].
  now apply (handleData_string aid data parsed).
Qed.

Lemma event_line aid token rest ms :
  startsWith (delta token) "data: " = true ->
  trim (slice 6 (delta token)) <> "[DONE]" ->
  match JSON.parse (trim (slice 6 (delta token))) with
  | Some parsed => tokenOf parsed
  | None => None
  end = Some (Some (JString token)) ->
  token <> EmptyString ->
  processLines aid (delta token :: rest) ms
  = processLines aid rest (appendToken aid token ms).
Proof.
  intros H1 H2 H3 H4.
  rewrite processLines_data by trivial.
  now rewrite (handleData_computed aid _ token).
Qed.

Ltac next_event :=
  rewrite event_line;
  [ | vm_compute; reflexivity | vm_compute; discriminate
    | vm_compute; reflexivity | discriminate ].

(** The chunk is closed and well-formed: it decodes to itself. *)
Ltac decoded :=
  match goal with
  | |- context [decode ?d ?v] =>
      replace (decode d v) with (v, fresh true) by (vm_compute; reflexivity)
  end;
  cbn [fst snd].

Lemma split_stream_Ola :
  split_lines stream_Ola = [delta "Ol"; delta "á"; line_done; EmptyString].
Proof. vm_compute. reflexivity. Qed.

Lemma split_event (line : string) :
  (forall c, In c (list_ascii_of_string line) -> code c <> 10) ->
  split_lines (line ++ LF) = [line; EmptyString].
Proof.
  induction line as [|c line IH]; intros H; [reflexivity|].
  cbn [append split_lines].
  destruct (Nat.eqb_spec (code c) 10) as [E|_].
  - elim (H c); [now left|exact E].
  - rewrite IH; [reflexivity|]. intros c' Hc'. apply H. now right.
Qed.

Lemma no_LF (line : string) :
  forallb (fun c => negb (code c =? 10)) (list_ascii_of_string line) = true ->
  forall c, In c (list_ascii_of_string line) -> code c <> 10.
Proof.
  intros H c Hc. rewrite forallb_forall in H. specialize (H c Hc).
  now destruct (Nat.eqb_spec (code c) 10).
Qed.

Lemma processLines_last aid ms : processLines aid [EmptyString] ms = ms.
Proof. reflexivity. Qed.

Lemma resume_event aid d token w :
  decode d (delta token ++ LF) = (delta token ++ LF, fresh true) ->
  (forall c, In c (list_ascii_of_string (delta token)) -> code c <> 10) ->
  startsWith (delta token) "data: " = true ->
  trim (slice 6 (delta token)) <> "[DONE]" ->
  match JSON.parse (trim (slice 6 (delta token))) with
  | Some parsed => tokenOf parsed
  | None => None
  end = Some (Some (JString token)) ->
  token <> EmptyString ->
  resume (AwaitingRead aid d) (ReadValue (delta token ++ LF)) w
  = (setMessages w (appendToken aid token (messages w)),
     AwaitingRead aid (fresh true)).
Proof.
  intros Hd Hlf H1 H2 H3 H4.
  rewrite resume_read_value, Hd. cbn [fst snd].
  rewrite split_event by trivial.
  rewrite event_line by trivial.
  now rewrite processLines_last.
Qed.

(** C6. A stream that emits the line whose delta carries ["Ol"], then the
    one whose delta carries ["á"], then [data: [DONE]], whether it comes in
    one chunk or line by line, leaves ["Olá"] appended to the content of the
    assistant message, the message that the lookup by its id finds; in
    general a content that is a string and not empty is appended to that
    message, and so is any other truthy content that has a string form, as
    that string; nothing is appended when the content is absent or falsy,
    nor when it is an object that cannot be converted to a string (the
    [TypeError] is swallowed by the [catch]). *)
Theorem stream_appends_Ola aid w before m after :
  foundAt aid (messages w) before m after ->
  let result := (before ++ withContent m (content m ++ "Olá") :: after)%list in
  messages (fst (resume (AwaitingRead aid newDecoder) (ReadValue stream_Ola) w))
  = result
  /\ (let '(w1, t1) :=
        resume (AwaitingRead aid newDecoder) (ReadValue (delta "Ol" ++ LF)) w in
      let '(w2, t2) := resume t1 (ReadValue (delta "á" ++ LF)) w1 in
      let '(w3, t3) := resume t2 (ReadValue (line_done ++ LF)) w2 in
      let '(w4, t4) := resume t3 ReadDone w3 in
      messages w4 = result /\ isLoading w4 = false /\ t4 = Finished)
  /\ (forall data parsed s,
        JSON.parse data = Some parsed ->
        tokenOf parsed = Some (Some (JString s)) ->
        s <> EmptyString ->
        handleData aid data (messages w)
        = (before ++ withContent m (content m ++ s) :: after)%list)
  /\ (forall data parsed v s,
        JSON.parse data = Some parsed ->
        tokenOf parsed = Some (Some v) ->
        truthyValue Number_isZero (Some v) = true ->
        toString Number_toString v = Some s ->
        handleData aid data (messages w)
        = (before ++ withContent m (content m ++ s) :: after)%list)
  /\ (forall data parsed v,
        JSON.parse data = Some parsed ->
        tokenOf parsed = Some (Some v) ->
        toString Number_toString v = None ->
        handleData aid data (messages w) = messages w)
  /\ (forall data parsed token,
        JSON.parse data = Some parsed ->
        tokenOf parsed = Some token ->
        truthyValue Number_isZero token = false ->
        handleData aid data (messages w) = messages w).
Proof.
  intros Hm result.
  assert (Hm1 := foundAt_after_append aid _ _ _ _ "Ol" Hm).
  assert (E : appendToken aid "á" (appendToken aid "Ol" (messages w)) = result).
  { rewrite (appendToken_foundAt _ _ _ _ _ _ Hm1). cbn [withContent content id role timestamp].
    now rewrite append_assoc. }
  split; [|split; [|split; [|split; [|split]]]].
  - rewrite resume_read_value. cbn [fst messages setMessages].
    decoded. rewrite split_stream_Ola.
    do 2 next_event.
    rewrite processLines_done by (vm_compute; reflexivity).
    exact E.
  - rewrite (resume_event aid newDecoder "Ol");
      [ | vm_compute; reflexivity | apply no_LF; vm_compute; reflexivity
        | vm_compute; reflexivity | vm_compute; discriminate
        | vm_compute; reflexivity | discriminate ].
    rewrite (resume_event aid (fresh true) "á");
      [ | vm_compute; reflexivity | apply no_LF; vm_compute; reflexivity
        | vm_compute; reflexivity | vm_compute; discriminate
        | vm_compute; reflexivity | discriminate ].
    rewrite resume_read_value.
    decoded. rewrite split_event by (apply no_LF; vm_compute; reflexivity).
    rewrite processLines_done by (vm_compute; reflexivity).
    cbn [Chat.resume completed setLoading setMessages messages isLoading].
    rewrite E. repeat split.
  - intros data parsed s Hp Ht Hs.
    rewrite (handleData_string aid data parsed s) by trivial.
    now apply appendToken_foundAt.
  - intros data parsed v s Hp Ht Hv Hs.
    rewrite (handleData_token aid data parsed v s) by trivial.
    now apply appendToken_foundAt.
  - intros data parsed v. apply handleData_unconvertible.
  - intros data parsed token. apply handleData_no_token.
Qed.

(** Contents that are not strings: some have a string form and are
    appended as it, an object with a member [toString] has none and is
    dropped, alone or inside an array. *)
Example token_forms :
  map (fun text =>
         map content
           (handleData "a1"
              ("{" ++ quoted "choices" ++ ":[{" ++ quoted "delta" ++ ":{"
               ++ quoted "content" ++ ":" ++ text ++ "}}]}")
              (messages sent)))
    ["true"; "{}"; "[" ++ quoted "a" ++ ",null,[true,{}]]";
     "{" ++ quoted "toString" ++ ":1}";
     "{" ++ quoted "toString" ++ ":null}";
     "[" ++ quoted "a" ++ ",[{" ++ quoted "toString" ++ ":1}]]";
     "{" ++ quoted "valueOf" ++ ":1}"]
  = [["oi"; "true"]; ["oi"; "[object Object]"];
     ["oi"; "a,,true,[object Object]"];
     ["oi"; EmptyString]; ["oi"; EmptyString]; ["oi"; EmptyString];
     ["oi"; "[object Object]"]].
Proof. vm_compute. reflexivity. Qed.

(** C9. The lines are split chunk by chunk and nothing is carried from one
    read to the next: there is an event line that, brought whole, appends its
    token, and brought in two chunks appends nothing, the first fragment
    having the prefix but no payload that parses, the second no prefix. *)
Theorem split_event_line_lost :
  exists c1 c2 : string,
    c1 ++ c2 = delta "Ol" ++ LF
    /\ map content
         (messages
            (fst (resume (AwaitingRead "a1" newDecoder) (ReadValue (c1 ++ c2)) sent)))
       = ["oi"; "Ol"]
    /\ (let '(w1, t1) := resume (AwaitingRead "a1" newDecoder) (ReadValue c1) sent in
        let '(w2, t2) := resume t1 (ReadValue c2) w1 in
        let '(w3, t3) := resume t2 ReadDone w2 in
        w1 = sent /\ w2 = sent
        /\ map content (messages w3) = ["oi"; EmptyString]
        /\ t3 = Finished)
    /\ (split_lines c1 = [c1]
        /\ startsWith c1 "data: " = true
        /\ JSON.parse (trim (slice 6 c1)) = None)
    /\ (exists f, split_lines c2 = [f; EmptyString]
                  /\ startsWith f "data: " = false).
Proof.
  exists fragment1, fragment2.
  split; [vm_compute; reflexivity|].
  split; [vm_compute; reflexivity|].
  split; [vm_compute; repeat split|].
  split; [vm_compute; repeat split|].
  eexists. vm_compute. split; reflexivity.
Qed.

(** *** Failure *)

Lemma failed_foundAt aid e w before m after :
  foundAt aid (messages w) before m after ->
  failed aid e w
  = ({| messages := (before ++ withContent m FALLBACK :: after)%list;
        isLoading := false;
        requests := requests w;
        console := (console w ++ [e])%list |}, Finished).
Proof.
  intros H. unfold failed. cbn [setMessages logError setLoading messages
    isLoading requests console].
  now rewrite (writeFallback_foundAt _ _ _ _ _ H).
Qed.

Lemma resume_finishes t s w :
  t <> Finished ->
  snd (resume t s w) = Finished ->
  isLoading (fst (resume t s w)) = false.
Proof.
  intros Ht.
  destruct t as [aid|aid d|]; [| |contradiction]; destruct s; simpl;
    try discriminate; trivial.
  - destruct (ok status); simpl; trivial.
    destruct hasBody; simpl; trivial. discriminate.
  - destruct (decode d value). discriminate.
Qed.

(** C3. When the call fails (the request is rejected, the response is not
    [ok] or has no body, a read is rejected), the content of the assistant
    message, whatever was streamed into it, becomes the fixed apology, and
    [isLoading] is false; and [isLoading] is false whenever the call is
    over, failed or not. *)
Theorem failure_writes_fallback t s w aid before m after :
  assistantOf t = Some aid ->
  failure t s ->
  foundAt aid (messages w) before m after ->
  (let '(w', t') := resume t s w in
   messages w'
   = (before
      ++ {| id := id m; role := role m;
            content := "Desculpe, ocorreu um erro. Tente novamente.";
            timestamp := timestamp m |} :: after)%list
   /\ isLoading w' = false
   /\ t' = Finished)
  /\ (forall t0 s0 w0,
        t0 <> Finished ->
        snd (resume t0 s0 w0) = Finished ->
        isLoading (fst (resume t0 s0 w0)) = false).
Proof.
  intros Ha Hf Hm. split; [|apply resume_finishes].
  destruct t as [a|a d|]; [| |discriminate]; injection Ha as ->;
    destruct s; simpl in Hf; try contradiction; cbn [Chat.resume].
  - rewrite (failed_foundAt _ _ _ _ _ _ Hm). repeat split.
  - destruct Hf as [Hf|Hf].
    + rewrite Hf. cbn [negb]. rewrite (failed_foundAt _ _ _ _ _ _ Hm).
      repeat split.
    + rewrite Hf. destruct (ok status); cbn [negb];
        rewrite (failed_foundAt _ _ _ _ _ _ Hm); repeat split.
  - rewrite (failed_foundAt _ _ _ _ _ _ Hm). repeat split.
Qed.

(** *** At most one call at a time *)

Lemma active_calls_app l l' :
  active_calls (l ++ l')%list = active_calls l + active_calls l'.
Proof. induction l as [|t l IH]; simpl; [|rewrite IH]; lia. Qed.

Lemma active_calls_set_nth l k t t' :
  nth_error l k = Some t ->
  active_calls (set_nth k t' l) + weight t = active_calls l + weight t'.
Proof.
  revert k. induction l as [|x l IH]; intros [|k] H; simpl in *; try discriminate.
  - injection H as ->. lia.
  - specialize (IH k H). lia.
Qed.

Lemma active_calls_nth l k t :
  nth_error l k = Some t -> weight t <= active_calls l.
Proof.
  revert k. induction l as [|x l IH]; intros [|k] H; simpl in *; try discriminate.
  - injection H as ->. lia.
  - specialize (IH k H). lia.
Qed.

Lemma resume_cases t r w :
  over t = false ->
  (over (snd (resume t r w)) = false
   /\ isLoading (fst (resume t r w)) = isLoading w)
  \/ (snd (resume t r w) = Finished
      /\ isLoading (fst (resume t r w)) = false).
Proof.
  intros Ht.
  destruct t as [aid|aid d|]; [| |discriminate]; destruct r; simpl; auto.
  - destruct (ok status); simpl; auto. destruct hasBody; simpl; auto.
  - destruct (decode d value). simpl. auto.
Qed.

Lemma resume_over t r w : over t = true -> resume t r w = (w, t).
Proof. destruct t; try discriminate. now destruct r. Qed.

Lemma sendMessage_cases su sa text w :
  sendMessage su sa text w = (w, Finished)
  \/ (isLoading w = false
      /\ isLoading (fst (sendMessage su sa text w)) = true
      /\ snd (sendMessage su sa text w) = AwaitingFetch (fresh_id sa)).
Proof.
  destruct (isLoading w) eqn:Hl.
  - left. apply sendMessage_rejected. now right.
  - destruct (trim text) eqn:Ht.
    + left. apply sendMessage_rejected. now left.
    + right. rewrite sendMessage_accepted by (trivial; rewrite Ht; discriminate).
      repeat split.
Qed.

Lemma balanced_step s e : balanced s -> balanced (step s e).
Proof.
  unfold balanced. intros H.
  destruct e as [su sa text| |k r].
  - unfold Chat.step.
    destruct (sendMessage_cases su sa text (world s)) as [E|(Hl & Hl' & Ht)].
    + rewrite E. cbn [world tasks]. rewrite active_calls_app. simpl. lia.
    + destruct (sendMessage su sa text (world s)) as [w' t'].
      cbn [fst snd] in Hl', Ht. cbn [world tasks].
      rewrite active_calls_app, Hl', Ht. rewrite Hl in H. simpl. lia.
  - exact H.
  - unfold Chat.step. destruct (nth_error (tasks s) k) as [t|] eqn:Hk; [|exact H].
    pose proof (active_calls_set_nth _ _ _ (snd (resume t r (world s))) Hk) as Hset.
    pose proof (active_calls_nth _ _ _ Hk) as Hle.
    destruct (over t) eqn:Ho.
    + rewrite (resume_over _ r (world s) Ho) in *. cbn [fst snd world tasks] in *.
      lia.
    + destruct (resume_cases t r (world s) Ho) as [(Ho' & Hl)|(Hf & Hl)];
        destruct (resume t r (world s)) as [w' t']; cbn [fst snd world tasks] in *.
      * rewrite Hl. unfold weight in *. rewrite Ho, Ho' in *. lia.
      * subst t'. rewrite Hl. unfold weight in *. rewrite Ho in *.
        simpl in Hset. destruct (isLoading (world s)); lia.
Qed.

Lemma balanced_reachable s : reachable s -> balanced s.
Proof.
  intros (es & ->). induction es as [|e es IH] using rev_ind.
  - reflexivity.
  - unfold Chat.run in *. rewrite fold_left_app. simpl.
    now apply balanced_step.
Qed.

(** While a call is not over, [isLoading] is true. *)
Lemma loading_while_active s k t :
  reachable s -> nth_error (tasks s) k = Some t -> over t = false ->
  isLoading (world s) = true.
Proof.
  intros Hr Hk Ho. pose proof (balanced_reachable s Hr) as Hb.
  pose proof (active_calls_nth _ _ _ Hk) as Hle.
  unfold balanced in Hb. unfold weight in Hle. rewrite Ho in Hle.
  destruct (isLoading (world s)); [reflexivity|lia].
Qed.

(** *** [clearMessages] under a call that awaits a read *)

Lemma step_send_rejected s su sa text :
  isLoading (world s) = true ->
  step s (CallSend su sa text)
  = {| world := world s; tasks := (tasks s ++ [Finished])%list |}.
Proof.
  intros H. unfold Chat.step.
  now rewrite (sendMessage_rejected su sa text (world s) (or_intror H)).
Qed.

Lemma step_settle s k t r :
  nth_error (tasks s) k = Some t ->
  step s (Settle k r)
  = {| world := fst (resume t r (world s));
       tasks := set_nth k (snd (resume t r (world s))) (tasks s) |}.
Proof.
  intros H. unfold Chat.step. rewrite H. now destruct (resume t r (world s)).
Qed.

Lemma cleared_step k aid s e :
  cleared k aid s -> interleaved k e -> cleared k aid (step s e).
Proof.
  intros (Hms & Hl & d & Ht) He.
  destruct e as [su sa text| |j r].
  - rewrite step_send_rejected by trivial.
    repeat split; trivial. exists d. cbn [tasks].
    rewrite nth_error_app1; trivial.
    apply nth_error_Some. congruence.
  - repeat split; trivial. now exists d.
  - destruct r; try contradiction. simpl in He. subst j.
    rewrite (step_settle _ _ _ _ Ht), resume_read_value.
    cbn [fst snd world tasks]. rewrite Hms.
    rewrite processLines_absent by (intros x []).
    repeat split; trivial.
    exists (snd (decode d value)). now apply (nth_error_set_nth _ _ _ _ Ht).
Qed.

Lemma cleared_run k aid es : forall s,
  cleared k aid s -> Forall (interleaved k) es -> cleared k aid (run s es).
Proof.
  induction es as [|e es IH]; intros s Hs Hes; [exact Hs|].
  inversion Hes as [|? ? He Hes']; subst.
  apply IH; trivial. now apply cleared_step.
Qed.

(** C10. Once [clearMessages] was called under a call that awaits a read,
    whatever chunks then come for it and whatever the view calls meanwhile,
    the lookup by the assistant message's id finds nothing, the writes are
    skipped and the messages stay empty; when the stream ends or the read is
    rejected, the messages are still empty, [isLoading] is false and the
    call is over. *)
Theorem clear_during_stream s k aid d es fin :
  reachable s ->
  nth_error (tasks s) k = Some (AwaitingRead aid d) ->
  Forall (interleaved k) es ->
  fin = ReadDone \/ (exists reason, fin = ReadRejected reason) ->
  let s1 := run (step s CallClear) es in
  let s2 := step s1 (Settle k fin) in
  messages (world s1) = []
  /\ isLoading (world s1) = true
  /\ findIndex (hasId aid) (messages (world s1)) = (-1)%Z
  /\ at_index (messages (world s1)) (findIndex (hasId aid) (messages (world s1)))
     = None
  /\ messages (world s2) = []
  /\ isLoading (world s2) = false
  /\ nth_error (tasks s2) k = Some Finished.
Proof.
  intros Hr Ht Hes Hfin s1 s2.
  assert (Hl : isLoading (world s) = true)
    by now apply (loading_while_active s k (AwaitingRead aid d)).
  assert (H0 : cleared k aid (step s CallClear)).
  { repeat split; trivial. now exists d. }
  destruct (cleared_run k aid es _ H0 Hes) as (Hms & Hl1 & d1 & Ht1).
  fold s1 in Hms, Hl1, Ht1.
  rewrite Hms. repeat split; trivial.
  - unfold s2. rewrite (step_settle _ _ _ _ Ht1).
    destruct Hfin as [->|(reason & ->)]; cbn; now rewrite Hms.
  - unfold s2. rewrite (step_settle _ _ _ _ Ht1).
    destruct Hfin as [->|(reason & ->)]; reflexivity.
  - unfold s2. rewrite (step_settle _ _ _ _ Ht1). cbn [tasks].
    replace (snd (resume (AwaitingRead aid d1) fin (world s1))) with Finished
      by (destruct Hfin as [->|(reason & ->)]; reflexivity).
    now apply (nth_error_set_nth _ _ _ _ Ht1).
Qed.

End Stream.

(** ** The statements at the sample session *)

Lemma foundAt_sent :
  foundAt "a1" (messages sent)
    [{| id := "u1"; role := user; content := "oi"; timestamp := 1 |}]
    {| id := "a1"; role := assistant; content := EmptyString; timestamp := 2 |}
    [].
Proof.
  split; [reflexivity|]. split; [reflexivity|].
  intros x [<-|[]]. discriminate.
Defined.

Lemma foundAt_partly :
  foundAt "a1" (messages partly)
    [{| id := "u1"; role := user; content := "oi"; timestamp := 1 |}]
    {| id := "a1"; role := assistant; content := "Ol"; timestamp := 2 |}
    [].
Proof.
  split; [reflexivity|]. split; [reflexivity|].
  intros x [<-|[]]. discriminate.
Defined.

Lemma stream_line_protocol_witness :
  processLines zeroLexeme asWritten "a1" ["event: ping"; delta "Ol"] (messages sent)
  = processLines zeroLexeme asWritten "a1" [delta "Ol"] (messages sent)
  /\ processLines zeroLexeme asWritten "a1" [line_done; delta "Ol"] (messages sent)
     = messages sent
  /\ processLines zeroLexeme asWritten "a1" [delta "Ol"; line_done] (messages sent)
     = processLines zeroLexeme asWritten "a1" [line_done]
         (handleData zeroLexeme asWritten "a1" (trim (slice 6 (delta "Ol")))
            (messages sent)).
Proof.
  split; [|split].
  - apply (proj1 (stream_line_protocol zeroLexeme asWritten "a1" "event: ping"
                    [delta "Ol"] (messages sent))).
    reflexivity.
  - apply (proj2 (stream_line_protocol zeroLexeme asWritten "a1" line_done
                    [delta "Ol"] (messages sent))).
    + reflexivity.
    + reflexivity.
  - apply (proj2 (stream_line_protocol zeroLexeme asWritten "a1" (delta "Ol")
                    [line_done] (messages sent))).
    + reflexivity.
    + vm_compute. discriminate.
Defined.

Lemma malformed_payload_dropped_witness :
  processLines zeroLexeme asWritten "a1" ["data: not-json"; delta "Ol"]
    (messages sent)
  = processLines zeroLexeme asWritten "a1" [delta "Ol"] (messages sent).
Proof.
  apply (malformed_payload_dropped zeroLexeme asWritten "a1" "data: not-json"
           [delta "Ol"] (messages sent)).
  - reflexivity.
  - vm_compute. discriminate.
  - reflexivity.
Defined.

Lemma stream_appends_Ola_witness :
  messages
    (fst (resume zeroLexeme asWritten (AwaitingRead "a1" newDecoder)
            (ReadValue stream_Ola) sent))
  = [{| id := "u1"; role := user; content := "oi"; timestamp := 1 |};
     {| id := "a1"; role := assistant; content := "Olá"; timestamp := 2 |}].
Proof.
  apply (stream_appends_Ola zeroLexeme asWritten "a1" sent _ _ _ foundAt_sent).
Defined.

Lemma failure_writes_fallback_witness :
  let '(w', t') :=
    resume zeroLexeme asWritten (AwaitingRead "a1" (fresh true))
      (ReadRejected "network error") partly in
  messages w'
  = [{| id := "u1"; role := user; content := "oi"; timestamp := 1 |};
     {| id := "a1"; role := assistant;
        content := "Desculpe, ocorreu um erro. Tente novamente.";
        timestamp := 2 |}]
  /\ isLoading w' = false
  /\ t' = Finished.
Proof.
  apply (failure_writes_fallback zeroLexeme asWritten
           (AwaitingRead "a1" (fresh true)) (ReadRejected "network error")
           partly "a1" _ _ _ eq_refl I foundAt_partly).
Defined.

Lemma clear_during_stream_witness :
  let es := [Settle 0 (ReadValue (delta "á" ++ LF));
             CallSend stampU stampA "de novo";
             Settle 0 (ReadValue line_done)] in
  let s1 := run zeroLexeme asWritten (step zeroLexeme asWritten midstream CallClear) es in
  let s2 := step zeroLexeme asWritten s1 (Settle 0 (ReadRejected "network error")) in
  map content (messages (world midstream)) = ["oi"; "Ol"]
  /\ messages (world s1) = []
  /\ isLoading (world s1) = true
  /\ findIndex (hasId "a1") (messages (world s1)) = (-1)%Z
  /\ at_index (messages (world s1)) (findIndex (hasId "a1") (messages (world s1)))
     = None
  /\ messages (world s2) = []
  /\ isLoading (world s2) = false
  /\ nth_error (tasks s2) 0 = Some Finished.
Proof.
  split; [reflexivity|].
  apply (clear_during_stream zeroLexeme asWritten midstream 0 "a1" (fresh true)).
  - eexists. reflexivity.
  - reflexivity.
  - repeat constructor.
  - right. exists "network error". reflexivity.
Defined.

End ChatSpec.

(** * More of the code: the input box, the view, the theme, and what the
      session keeps *)

Module ChatMore.

Import JS JSON Access TextDecoder Chat Samples Terms ChatSpec.

(** ** [trim] returns a trimmed text *)

Lemma append_empty (s : string) : s ++ EmptyString = s.
Proof. induction s as [|c s IH]; simpl; [|rewrite IH]; reflexivity. Qed.

Lemma rev_onto_reverse (s acc : string) : rev_onto s acc = reverse s ++ acc.
Proof.
  revert acc. induction s as [|c s IH]; intros acc; [reflexivity|].
  unfold reverse. cbn [rev_onto]. rewrite (IH (String c EmptyString)), IH.
  now rewrite append_assoc.
Qed.

Lemma reverse_cons (c : ascii) (s : string) :
  reverse (String c s) = reverse s ++ String c EmptyString.
Proof. unfold reverse at 1. cbn [rev_onto]. apply rev_onto_reverse. Qed.

Lemma reverse_append (a b : string) : reverse (a ++ b) = reverse b ++ reverse a.
Proof.
  induction a as [|c a IH]; cbn [append].
  - now rewrite append_empty.
  - now rewrite !reverse_cons, IH, append_assoc.
Qed.

Lemma reverse_involutive (s : string) : reverse (reverse s) = s.
Proof.
  induction s as [|c s IH]; [reflexivity|].
  now rewrite reverse_cons, reverse_append, IH.
Qed.

Lemma trimStart_stable (s : string) : startsWs s = false -> trimStart s = s.
Proof.
  destruct s as [|a [|b [|c r]]]; cbn [startsWs trimStart]; trivial;
    destruct (ws1 a); try discriminate; trivial;
    destruct (ws2 a b); try discriminate; trivial;
    destruct (ws3 a b c); try discriminate; trivial.
Qed.

Lemma trimReversed_stable (s : string) :
  startsWsReversed s = false -> trimReversed s = s.
Proof.
  destruct s as [|a [|b [|c r]]]; cbn [startsWsReversed trimReversed]; trivial;
    destruct (ws1 a); try discriminate; trivial;
    destruct (ws2 b a); try discriminate; trivial;
    destruct (ws3 c b a); try discriminate; trivial.
Qed.

Lemma trimStart_equation (s : string) :
  trimStart s
  = match s with
    | EmptyString => s
    | String a r1 =>
        if ws1 a then trimStart r1
        else
          match r1 with
          | EmptyString => s
          | String b r2 =>
              if ws2 a b then trimStart r2
              else
                match r2 with
                | EmptyString => s
                | String c r3 => if ws3 a b c then trimStart r3 else s
                end
          end
    end.
Proof. destruct s; reflexivity. Qed.

Lemma trimReversed_equation (s : string) :
  trimReversed s
  = match s with
    | EmptyString => s
    | String c r1 =>
        if ws1 c then trimReversed r1
        else
          match r1 with
          | EmptyString => s
          | String b r2 =>
              if ws2 b c then trimReversed r2
              else
                match r2 with
                | EmptyString => s
                | String a r3 => if ws3 a b c then trimReversed r3 else s
                end
          end
    end.
Proof. destruct s; reflexivity. Qed.

(** What [trimStart] returns does not begin with white space. *)
Lemma trimStart_trimmed (s : string) : startsWs (trimStart s) = false.
Proof.
  remember (String.length s) as n eqn:Hn.
  assert (Hle : String.length s <= n) by lia. clear Hn. revert s Hle.
  induction n as [|n IH]; intros s Hle.
  - destruct s; [reflexivity|simpl in Hle; lia].
  - rewrite trimStart_equation.
    destruct s as [|a r1]; [reflexivity|]. cbn [String.length] in Hle.
    destruct (ws1 a) eqn:E1; [apply IH; lia|].
    destruct r1 as [|b r2]; [cbn [startsWs]; now rewrite E1|].
    cbn [String.length] in Hle.
    destruct (ws2 a b) eqn:E2; [apply IH; lia|].
    destruct r2 as [|c r3]; [cbn [startsWs]; now rewrite E1, E2|].
    cbn [String.length] in Hle.
    destruct (ws3 a b c) eqn:E3; [apply IH; lia|].
    cbn [startsWs]. now rewrite E1, E2, E3.
Qed.

Lemma trimReversed_trimmed (s : string) : startsWsReversed (trimReversed s) = false.
Proof.
  remember (String.length s) as n eqn:Hn.
  assert (Hle : String.length s <= n) by lia. clear Hn. revert s Hle.
  induction n as [|n IH]; intros s Hle.
  - destruct s; [reflexivity|simpl in Hle; lia].
  - rewrite trimReversed_equation.
    destruct s as [|c r1]; [reflexivity|]. cbn [String.length] in Hle.
    destruct (ws1 c) eqn:E1; [apply IH; lia|].
    destruct r1 as [|b r2]; [cbn [startsWsReversed]; now rewrite E1|].
    cbn [String.length] in Hle.
    destruct (ws2 b c) eqn:E2; [apply IH; lia|].
    destruct r2 as [|a r3]; [cbn [startsWsReversed]; now rewrite E1, E2|].
    cbn [String.length] in Hle.
    destruct (ws3 a b c) eqn:E3; [apply IH; lia|].
    cbn [startsWsReversed]. now rewrite E1, E2, E3.
Qed.

(** What [trimReversed] returns is the end of what it was given. *)
Lemma trimReversed_suffix (s : string) : exists p, s = p ++ trimReversed s.
Proof.
  remember (String.length s) as n eqn:Hn.
  assert (Hle : String.length s <= n) by lia. clear Hn. revert s Hle.
  induction n as [|n IH]; intros s Hle.
  - destruct s; [now exists EmptyString|simpl in Hle; lia].
  - rewrite trimReversed_equation.
    destruct s as [|c r1]; [now exists EmptyString|]. cbn [String.length] in Hle.
    destruct (ws1 c).
    { destruct (IH r1) as [p Hp]; [lia|].
      exists (String c p). cbn [append]. now rewrite <- Hp. }
    destruct r1 as [|b r2]; [now exists EmptyString|].
    cbn [String.length] in Hle.
    destruct (ws2 b c).
    { destruct (IH r2) as [p Hp]; [lia|].
      exists (String c (String b p)). cbn [append]. now rewrite <- Hp. }
    destruct r2 as [|a r3]; [now exists EmptyString|].
    cbn [String.length] in Hle.
    destruct (ws3 a b c).
    { destruct (IH r3) as [p Hp]; [lia|].
      exists (String c (String b (String a p))). cbn [append]. now rewrite <- Hp. }
    now exists EmptyString.
Qed.

Lemma trimEnd_prefix (s : string) : exists q, s = trimEnd s ++ q.
Proof.
  destruct (trimReversed_suffix (reverse s)) as [p Hp].
  exists (reverse p). unfold trimEnd.
  rewrite <- reverse_append, <- Hp. now rewrite reverse_involutive.
Qed.

Lemma startsWs_prefix (z q : string) :
  startsWs (z ++ q) = false -> z = EmptyString \/ startsWs z = false.
Proof.
  destruct z as [|a [|b [|c r]]]; cbn [append startsWs]; intros H;
    [now left|right..].
  all: try exact H.
  all: destruct (ws1 a); [discriminate|]; trivial.
  destruct (ws2 a b); [discriminate|]; trivial.
Qed.

Lemma trimEnd_keeps_start (s : string) :
  startsWs s = false -> startsWs (trimEnd s) = false.
Proof.
  intros H. destruct (trimEnd_prefix s) as [q Hq].
  rewrite Hq in H. destruct (startsWs_prefix _ _ H) as [E|E]; trivial.
  now rewrite E.
Qed.

Lemma trimEnd_idempotent (s : string) : trimEnd (trimEnd s) = trimEnd s.
Proof.
  unfold trimEnd. rewrite reverse_involutive.
  now rewrite (trimReversed_stable _ (trimReversed_trimmed (reverse s))).
Qed.

Lemma trim_idempotent (s : string) : trim (trim s) = trim s.
Proof.
  unfold trim at 1.
  rewrite trimStart_stable.
  - unfold trim. apply trimEnd_idempotent.
  - unfold trim. apply trimEnd_keeps_start, trimStart_trimmed.
Qed.

(** ** The input box and the view *)

Lemma handleSubmit_blank text :
  trim text = EmptyString -> ChatInput.handleSubmit text = (text, None).
Proof. intros H. unfold ChatInput.handleSubmit. now rewrite H. Qed.

Lemma handleSubmit_text text :
  trim text <> EmptyString ->
  ChatInput.handleSubmit text = (EmptyString, Some (trim text)).
Proof.
  intros H. unfold ChatInput.handleSubmit.
  destruct (trim text); [contradiction|reflexivity].
Qed.

(** X1. A text that is not blank, submitted from the box while the session
    is idle, empties the box and reaches the session trimmed: the user
    message holds the trimmed text, the empty assistant message follows it,
    and the session is loading. *)
Theorem submit_sends_trimmed su sa text w :
  isLoading w = false ->
  trim text <> EmptyString ->
  let '(text', (w', t)) := ChatView.submit su sa text w in
  text' = EmptyString
  /\ messages w'
     = (messages w
        ++ [{| id := fresh_id su; role := user; content := trim text;
               timestamp := now su |};
            {| id := fresh_id sa; role := assistant; content := EmptyString;
               timestamp := now sa |}])%list
  /\ isLoading w' = true
  /\ t = AwaitingFetch (fresh_id sa).
Proof.
  intros Hidle Htext. unfold ChatView.submit, ChatView.handleSend.
  rewrite handleSubmit_text by trivial.
  rewrite sendMessage_accepted by (trivial; now rewrite trim_idempotent).
  repeat split.
Qed.

Lemma submit_sends_trimmed_witness :
  let '(text', (w', t)) :=
    ChatView.submit stampU stampA ("  oi " ++ LF) (world initial) in
  text' = EmptyString
  /\ messages w'
     = [{| id := "u1"; role := user; content := "oi"; timestamp := 1 |};
        {| id := "a1"; role := assistant; content := EmptyString; timestamp := 2 |}]
  /\ isLoading w' = true
  /\ t = AwaitingFetch "a1".
Proof.
  apply (submit_sends_trimmed stampU stampA ("  oi " ++ LF) (world initial)).
  - reflexivity.
  - vm_compute. discriminate.
Defined.

(** X2. A submit that sends nothing: a blank text leaves the box and the
    session as they are; a text that is not blank, submitted while the
    session is loading, is emitted and rejected by the session, and the box
    is emptied all the same. *)
Theorem submit_without_effect su sa text w :
  (trim text = EmptyString ->
   ChatView.submit su sa text w = (text, (w, Finished)))
  /\ (trim text <> EmptyString ->
      isLoading w = true ->
      ChatView.submit su sa text w = (EmptyString, (w, Finished))).
Proof.
  unfold ChatView.submit, ChatView.handleSend. split.
  - intros H. now rewrite handleSubmit_blank.
  - intros H Hl. rewrite handleSubmit_text by trivial.
    now rewrite sendMessage_rejected by now right.
Qed.

Lemma submit_without_effect_witness :
  ChatView.submit stampU stampA (bytes [32; 10; 9]) sent
  = (bytes [32; 10; 9], (sent, Finished))
  /\ ChatView.submit stampU stampA "e agora?" sent
     = (EmptyString, (sent, Finished)).
Proof.
  split.
  - apply (proj1 (submit_without_effect stampU stampA (bytes [32; 10; 9]) sent)).
    reflexivity.
  - apply (proj2 (submit_without_effect stampU stampA "e agora?" sent)).
    + vm_compute. discriminate.
    + reflexivity.
Defined.

Lemma dotsAt_true w i :
  ChatView.dotsAt w i = true ->
  S i = List.length (messages w)
  /\ isLoading w = true
  /\ exists msg, nth_error (messages w) i = Some msg
                 /\ role msg = assistant /\ content msg = EmptyString.
Proof.
  unfold ChatView.dotsAt, ChatView.showsDots, ChatView.loadingProp,
    ChatView.isAssistant.
  destruct (nth_error (messages w) i) as [msg|]; [|discriminate].
  intros H.
  apply andb_true_iff in H. destruct H as [H H3].
  apply andb_true_iff in H. destruct H as [_ H2].
  apply andb_true_iff in H3. destruct H3 as [H3 H5].
  apply andb_true_iff in H3. destruct H3 as [H3 H4].
  apply Nat.eqb_eq in H5. repeat split; trivial.
  exists msg. repeat split.
  - destruct (role msg); trivial; discriminate.
  - destruct (content msg); trivial; discriminate.
Qed.

(** X3. The three dots are shown by one bubble at most: that of the last
    message, when it is an assistant message of empty content and the
    session is loading.  An accepted [sendMessage] shows them on the
    message it pushed last; once a token that is not empty was appended to
    that message, no bubble shows them. *)
Theorem dots_follow_placeholder su sa text w :
  (forall i,
     ChatView.dotsAt w i = true ->
     S i = List.length (messages w)
     /\ isLoading w = true
     /\ exists msg, nth_error (messages w) i = Some msg
                    /\ role msg = assistant /\ content msg = EmptyString)
  /\ (isLoading w = false ->
      trim text <> EmptyString ->
      ChatView.dotsAt (fst (sendMessage su sa text w))
        (S (List.length (messages w))) = true)
  /\ (forall aid before m token,
        foundAt aid (messages w) before m [] ->
        token <> EmptyString ->
        forall i,
          ChatView.dotsAt (setMessages w (appendToken aid token (messages w))) i
          = false).
Proof.
  split; [apply dotsAt_true|]. split.
  - intros Hidle Htext. rewrite sendMessage_accepted by trivial.
    unfold ChatView.dotsAt. cbn [fst messages].
    rewrite nth_error_app2 by lia.
    replace (S (List.length (messages w)) - List.length (messages w)) with 1
      by lia.
    cbn [nth_error]. unfold ChatView.showsDots, ChatView.loadingProp,
      ChatView.isUser, ChatView.isAssistant.
    cbn [role content createMessage isLoading messages truthy negb andb].
    rewrite length_app. cbn [List.length].
    apply Nat.eqb_eq. lia.
  - intros aid before m token Hm Htok i.
    destruct (ChatView.dotsAt _ i) eqn:E; [|reflexivity]. exfalso.
    apply dotsAt_true in E. destruct E as (Hlast & _ & msg & Hnth & _ & Hc).
    cbn [messages setMessages] in Hlast, Hnth.
    rewrite (appendToken_foundAt _ _ _ _ _ _ Hm) in Hlast, Hnth.
    rewrite length_app in Hlast. cbn [List.length] in Hlast.
    assert (i = List.length before) by lia. subst i.
    rewrite nth_error_app2, Nat.sub_diag in Hnth by lia.
    injection Hnth as <-. cbn [content withContent] in Hc.
    destruct (content m); destruct token; try discriminate. contradiction.
Qed.

Lemma dots_follow_placeholder_witness :
  ChatView.dotsAt (fst (sendMessage stampU stampA "oi" (world initial))) 1 = true
  /\ (forall i,
        ChatView.dotsAt (setMessages sent (appendToken "a1" "Ol" (messages sent))) i
        = false).
Proof.
  split.
  - apply (proj1 (proj2 (dots_follow_placeholder stampU stampA "oi"
                           (world initial)))).
    + reflexivity.
    + vm_compute. discriminate.
  - apply (proj2 (proj2 (dots_follow_placeholder stampU stampA "oi" sent))
             "a1" _ _ "Ol" foundAt_sent).
    discriminate.
Defined.

(** ** The theme *)

Import DarkMode.

(** X4. What [applyTheme] stored is what the module reads back when it is
    loaded again: the theme that was chosen, whatever the system prefers
    then and whatever class the root element has. *)
Theorem theme_survives_reload (st : State) (prefers classBefore : bool) :
  load (theme (applyTheme st)) prefers classBefore = applyTheme st.
Proof. destruct st as [[|] saved c]; reflexivity. Qed.

(** X5. Once the module is loaded, the stored theme names the value of
    [isDark] and the class of the root element follows it; that value is
    the system preference when nothing, or the empty string, was stored, and
    otherwise whether the stored string is exactly [dark]. *)
Theorem load_settles_theme (saved : option string) (prefers classBefore : bool) :
  let st := load saved prefers classBefore in
  theme st = Some (if isDark st then "dark" else "light")
  /\ darkClass st = isDark st
  /\ (saved = None \/ saved = Some EmptyString -> isDark st = prefers)
  /\ (forall s, saved = Some s -> s <> EmptyString ->
                isDark st = String.eqb s "dark").
Proof.
  cbn. repeat split.
  - intros [->| ->]; reflexivity.
  - intros s -> Hs. cbn. destruct s; [contradiction|reflexivity].
Qed.

Lemma load_settles_theme_witness :
  isDark (load None true false) = true
  /\ isDark (load (Some "Dark") true true) = false
  /\ theme (load (Some "Dark") true true) = Some "light".
Proof.
  split; [|split].
  - apply (proj1 (proj2 (proj2 (load_settles_theme None true false)))).
    left. reflexivity.
  - apply (proj2 (proj2 (proj2 (load_settles_theme (Some "Dark") true true)))
             "Dark" eq_refl).
    discriminate.
  - apply (proj1 (load_settles_theme (Some "Dark") true true)).
Defined.

Lemma themeKept_step st e : themeKept st -> themeKept (step st e).
Proof.
  intros (s & Hs & Ht). destruct e as [| |matches]; cbn.
  - now exists s.
  - exists (if isDark st then "dark" else "light"). split; trivial.
    now destruct (isDark st).
  - unfold onPreferenceChange. rewrite Hs, Ht. now exists s.
Qed.

Lemma preference_step st matches :
  themeKept st -> step st (PreferenceChanges matches) = st.
Proof.
  intros (s & Hs & Ht). cbn. unfold onPreferenceChange. now rewrite Hs, Ht.
Qed.

Lemma run_without_preference st es :
  themeKept st ->
  run st es = run st (filter (fun e => negb (isPreference e)) es).
Proof.
  revert st. induction es as [|e es IH]; intros st H; [reflexivity|].
  cbn [filter]. destruct e as [| |matches]; cbn [isPreference negb].
  - cbn [run fold_left]. apply IH. now apply themeKept_step.
  - cbn [run fold_left]. apply IH. now apply themeKept_step.
  - unfold run. cbn [fold_left]. rewrite preference_step by trivial.
    now apply IH.
Qed.

(** X6. Once the module is loaded, a change of the system preference
    changes nothing, whatever was stored before and whatever toggles and
    runs of the watcher come in between: loading has stored a theme, and
    the listener only acts when none is stored. *)
Theorem preference_ignored_once_loaded
  (saved : option string) (prefers classBefore : bool) (es : list Event) :
  run (load saved prefers classBefore) es
  = run (load saved prefers classBefore)
      (filter (fun e => negb (isPreference e)) es).
Proof.
  apply run_without_preference.
  exists (if getDefaultTheme saved prefers then "dark" else "light").
  split; [reflexivity|]. now destruct (getDefaultTheme saved prefers).
Qed.

(** ** What the session keeps *)

Lemma lookup_cases aid ms :
  (forall x, In x ms -> id x <> aid)
  \/ exists before m after, foundAt aid ms before m after.
Proof.
  induction ms as [|x ms IH].
  - left. intros x [].
  - destruct (String.eqb_spec (id x) aid) as [E|E].
    + right. exists [], x, ms. repeat split; trivial. intros y [].
    + destruct IH as [IH|(before & m & after & -> & Hid & Hno)].
      * left. intros y [<-|Hy]; auto.
      * right. exists (x :: before), m, after. repeat split; trivial.
        intros y [<-|Hy]; auto.
Qed.

Lemma withContent_same (m : Message) : withContent m (content m) = m.
Proof. now destruct m. Qed.

Lemma map_frame_middle before m c after :
  map frame (before ++ withContent m c :: after)%list
  = map frame (before ++ m :: after)%list.
Proof. now rewrite !map_app. Qed.

Lemma nth_error_middle_other {A} (before : list A) (x y : A) (after : list A) i :
  i <> List.length before ->
  nth_error (before ++ y :: after)%list i = nth_error (before ++ x :: after)%list i.
Proof.
  revert i. induction before as [|z before IH]; intros [|i] H; simpl in *;
    trivial; try lia.
  apply IH. lia.
Qed.

Lemma paired_append l l' : paired l = true -> paired (l ++ l')%list = paired l'.
Proof.
  remember (List.length l) as n eqn:Hn.
  assert (Hle : List.length l <= n) by lia. clear Hn. revert l Hle.
  induction n as [|n IH]; intros l Hle H.
  - destruct l; [reflexivity|simpl in Hle; lia].
  - destruct l as [|[| |] [|[| |] r]]; try discriminate; [reflexivity|].
    cbn [paired app] in *. apply IH; trivial. simpl in Hle. lia.
Qed.

Lemma paired_no_system l : paired l = true -> Forall (fun r => r <> system) l.
Proof.
  remember (List.length l) as n eqn:Hn.
  assert (Hle : List.length l <= n) by lia. clear Hn. revert l Hle.
  induction n as [|n IH]; intros l Hle H.
  - destruct l; [constructor|simpl in Hle; lia].
  - destruct l as [|[| |] [|[| |] r]]; try discriminate; [constructor|].
    repeat constructor; try discriminate.
    apply IH; trivial. simpl in Hle. lia.
Qed.

Lemma split_lines_nonempty s : split_lines s <> [].
Proof.
  destruct s as [|c s]; cbn [split_lines]; [discriminate|].
  destruct (code c =? 10); [discriminate|].
  destruct (split_lines s); discriminate.
Qed.

Lemma split_lines_LF a b :
  split_lines (a ++ LF ++ b) = (split_lines a ++ split_lines b)%list.
Proof.
  induction a as [|c a IH]; [reflexivity|].
  cbn [append split_lines]. rewrite IH.
  destruct (code c =? 10); [reflexivity|].
  destruct (split_lines a) as [|l ls] eqn:E; [|reflexivity].
  now elim (split_lines_nonempty a).
Qed.

Section Session.

Variable Number_isZero : string -> bool.
Variable Number_toString : string -> string.

Local Abbreviation handleData := (Chat.handleData Number_isZero Number_toString).
Local Abbreviation processLines := (Chat.processLines Number_isZero Number_toString).
Local Abbreviation resume := (Chat.resume Number_isZero Number_toString).
Local Abbreviation step := (Chat.step Number_isZero Number_toString).
Local Abbreviation run := (Chat.run Number_isZero Number_toString).
Local Abbreviation reachable := (Samples.reachable Number_isZero Number_toString).

(** *** The lines of a chunk, and the chunks of a stream *)

Lemma processLines_app aid l1 l2 ms :
  processLines aid (l1 ++ l2)%list ms
  = if stops l1 then processLines aid l1 ms
    else processLines aid l2 (processLines aid l1 ms).
Proof.
  revert ms. induction l1 as [|line l1 IH]; intros ms; [reflexivity|].
  cbn [app]. rewrite !(processLines_cons _ _ aid line).
  unfold stops. cbn [existsb]. fold (stops l1). unfold isDone.
  destruct (startsWith line "data: "); cbn [negb andb orb].
  - destruct (String.eqb (trim (slice 6 line)) "[DONE]"); cbn [orb]; trivial.
  - apply IH.
Qed.

(** X7. The lines of a chunk compose: processing two lists of lines one
    after the other is processing their concatenation, unless a line of the
    first list carries [[DONE]]; then the concatenation stops there and the
    second list is not looked at. *)
Theorem lines_compose aid l1 l2 ms :
  processLines aid (l1 ++ l2)%list ms
  = if stops l1 then processLines aid l1 ms
    else processLines aid l2 (processLines aid l1 ms).
Proof. apply processLines_app. Qed.

Lemma processLines_blank_last aid lines ms :
  stops lines = false ->
  processLines aid (lines ++ [EmptyString])%list ms = processLines aid lines ms.
Proof. intros H. now rewrite processLines_app, H. Qed.

(** X8. Where the transport cuts the stream does not matter when it cuts
    after a line feed: if the first chunk decodes to lines ended by a line
    feed, none of which carries [[DONE]], then reading it and then a second
    chunk leaves the session and the call as reading both in one chunk
    does. *)
Theorem reads_compose aid d v1 v2 a d1 w :
  decode d v1 = (a ++ LF, d1) ->
  stops (split_lines a) = false ->
  (let '(w1, t1) := resume (AwaitingRead aid d) (ReadValue v1) w in
   resume t1 (ReadValue v2) w1)
  = resume (AwaitingRead aid d) (ReadValue (v1 ++ v2)) w.
Proof.
  intros Hd Hs.
  rewrite (resume_read_value _ _ aid d v1), Hd. cbn [fst snd].
  rewrite !resume_read_value, decode_append, Hd.
  destruct (decode d1 v2) as [o2 d2]. cbn [fst snd messages setMessages].
  rewrite append_assoc, split_lines_LF.
  replace (a ++ LF) with (a ++ LF ++ EmptyString) by now rewrite append_empty.
  rewrite split_lines_LF. cbn [split_lines].
  rewrite processLines_blank_last by trivial.
  rewrite (processLines_app aid (split_lines a)), Hs.
  reflexivity.
Qed.

(** *** What a call changes of the messages *)

Lemma handleData_foundAt aid data ms before m after :
  foundAt aid ms before m after ->
  exists suffix,
    handleData aid data ms
    = (before ++ withContent m (content m ++ suffix) :: after)%list.
Proof.
  intros H.
  destruct (handleData_cases Number_isZero Number_toString aid data ms)
    as [E|(token & E)]; rewrite E.
  - exists EmptyString. rewrite append_empty, withContent_same. apply H.
  - exists token. now apply appendToken_foundAt.
Qed.

Lemma processLines_foundAt aid lines : forall ms before m after,
  foundAt aid ms before m after ->
  exists suffix,
    processLines aid lines ms
    = (before ++ withContent m (content m ++ suffix) :: after)%list.
Proof.
  induction lines as [|line rest IH]; intros ms before m after H.
  - exists EmptyString. rewrite append_empty, withContent_same. apply H.
  - rewrite processLines_cons.
    destruct (startsWith line "data: "); cbn [negb]; [|now apply IH].
    destruct (String.eqb (trim (slice 6 line)) "[DONE]").
    + exists EmptyString. rewrite append_empty, withContent_same. apply H.
    + destruct (handleData_foundAt aid (trim (slice 6 line)) ms _ _ _ H)
        as [s1 E1].
      assert (H1 : foundAt aid (handleData aid (trim (slice 6 line)) ms) before
                     (withContent m (content m ++ s1)) after).
      { rewrite E1. destruct H as (_ & Hid & Hno). repeat split; trivial. }
      destruct (IH _ _ _ _ H1) as [s2 E2].
      exists (s1 ++ s2). rewrite E2. cbn [withContent content id role timestamp].
      now rewrite append_assoc.
Qed.

(** Of the messages, a call changes at most the content of the one that the
    lookup by its id finds. *)
Lemma resume_messages t s w aid :
  assistantOf t = Some aid ->
  messages (fst (resume t s w)) = messages w
  \/ exists before m after c,
       foundAt aid (messages w) before m after
       /\ messages (fst (resume t s w))
          = (before ++ withContent m c :: after)%list.
Proof.
  intros Ht.
  assert (Hfail : forall e,
            messages (fst (failed aid e w)) = messages w
            \/ exists before m after c,
                 foundAt aid (messages w) before m after
                 /\ messages (fst (failed aid e w))
                    = (before ++ withContent m c :: after)%list).
  { intros e. cbn.
    destruct (lookup_cases aid (messages w)) as [Hno|(before & m & after & H)].
    - left. now apply writeFallback_absent.
    - right. exists before, m, after, FALLBACK. split; trivial.
      now apply writeFallback_foundAt. }
  destruct t as [a|a d|]; [| |discriminate]; injection Ht as ->;
    destruct s; try rewrite resume_read_value; cbn [Chat.resume]; auto.
  - destruct (ok status); cbn [negb]; auto.
    destruct hasBody; cbn [negb]; auto.
  - cbn [fst messages setMessages].
    destruct (lookup_cases aid (messages w)) as [Hno|(before & m & after & H)].
    + left. now apply processLines_absent.
    + right.
      destruct (processLines_foundAt aid (split_lines (fst (decode d value)))
                  _ _ _ _ H) as [suffix E].
      exists before, m, after, (content m ++ suffix). now split.
Qed.

(** X9. No message is added, removed or moved by a call once it was
    started, and none changes its id, its role or its timestamp: whatever
    arrives, the messages keep their frames. *)
Theorem resume_keeps_frames t s w :
  map frame (messages (fst (resume t s w))) = map frame (messages w).
Proof.
  destruct (assistantOf t) as [aid|] eqn:Ht.
  - destruct (resume_messages t s w aid Ht)
      as [E|(before & m & after & c & (E0 & _) & E)]; rewrite E; trivial.
    rewrite E0. apply map_frame_middle.
  - destruct t; try discriminate. now destruct s.
Qed.

(** X10. A message whose id is not that of the assistant message of the
    call is never changed by the call. *)
Theorem resume_spares_others t s w aid i m :
  assistantOf t = Some aid ->
  nth_error (messages w) i = Some m ->
  id m <> aid ->
  nth_error (messages (fst (resume t s w))) i = Some m.
Proof.
  intros Ht Hi Hid.
  destruct (resume_messages t s w aid Ht)
    as [E|(before & m0 & after & c & (E0 & Hid0 & _) & E)]; rewrite E; trivial.
  rewrite E0 in Hi.
  rewrite (nth_error_middle_other before m0); trivial.
  intros ->. rewrite nth_error_app2, Nat.sub_diag in Hi by lia.
  injection Hi as ->. contradiction.
Qed.

Lemma resume_read_appends aid d value w before m after :
  foundAt aid (messages w) before m after ->
  exists suffix,
    messages (fst (resume (AwaitingRead aid d) (ReadValue value) w))
    = (before ++ withContent m (content m ++ suffix) :: after)%list.
Proof.
  intros H. rewrite resume_read_value. cbn [fst messages setMessages].
  now apply processLines_foundAt.
Qed.

(** X11. A chunk only appends: after a read, the content of the assistant
    message is what it was, followed by what the chunk brought (possibly
    nothing), and the other messages are what they were. *)
Theorem read_only_appends aid d value w before m after :
  foundAt aid (messages w) before m after ->
  exists suffix,
    messages (fst (resume (AwaitingRead aid d) (ReadValue value) w))
    = (before
       ++ {| id := id m; role := role m; content := content m ++ suffix;
             timestamp := timestamp m |} :: after)%list.
Proof. apply resume_read_appends. Qed.

(** *** Payloads that are not what the stream promises *)

(** X12. A payload that is JSON but not an object (a number, a string, a
    boolean, an array, [null]) appends nothing. *)
Theorem non_object_payload_ignored aid data v ms :
  JSON.parse data = Some v ->
  (forall members, v <> JObject members) ->
  handleData aid data ms = ms.
Proof.
  intros Hp Hv. unfold Chat.handleData. rewrite Hp.
  destruct v as [| | | |l|members]; try reflexivity.
  now elim (Hv members).
Qed.

(** *** Failures and requests *)

Lemma resume_requests t r w : requests (fst (resume t r w)) = requests w.
Proof.
  destruct t as [aid|aid d|]; destruct r; try reflexivity.
  - cbn [Chat.resume]. destruct (ok status); [|reflexivity].
    destruct hasBody; reflexivity.
  - now rewrite resume_read_value.
Qed.

(** X13. A call that fails logs one error and a call that does not logs
    none; a response that is not [ok] is reported by its status, whether or
    not it has a body. *)
Theorem error_logged_once t s w :
  (failure t s ->
   exists e,
     console (fst (resume t s w)) = (console w ++ [e])%list
     /\ (forall status hasBody,
           s = FetchResponse status hasBody -> ok status = false ->
           e = HttpError status))
  /\ (~ failure t s -> console (fst (resume t s w)) = console w).
Proof.
  split.
  - intros Hf.
    destruct t as [aid|aid d|]; destruct s; try contradiction; cbn [Chat.resume].
    + exists (Rejection reason). split; [reflexivity|]. discriminate.
    + destruct (ok status) eqn:Hok; cbn [negb].
      * cbn in Hf. destruct Hf as [Hf|Hf]; [congruence|]. rewrite Hf.
        exists StreamUnavailable. split; [reflexivity|].
        intros st hb E Hst. injection E as E1 E2. congruence.
      * exists (HttpError status). split; [reflexivity|].
        intros st hb E _. injection E as E1 E2. congruence.
    + exists (Rejection reason). split; [reflexivity|]. discriminate.
  - intros Hf.
    destruct t as [aid|aid d|]; destruct s; try reflexivity;
      try (elim Hf; exact I); cbn [Chat.resume].
    + destruct (ok status) eqn:Hok; cbn [negb];
        [destruct hasBody eqn:Hb; cbn [negb]; trivial|];
        elim Hf; cbn; auto.
    + now destruct (decode d value).
Qed.

(** X14. Requests are issued by accepted calls of [sendMessage] and by
    nothing else: an event either leaves the requests as they are, or is
    such a call and adds one request, to the one endpoint.  No failure is
    followed by a second request. *)
Theorem requests_only_from_sends s e :
  requests (world (step s e)) = requests (world s)
  \/ exists su sa text r,
       e = CallSend su sa text
       /\ isLoading (world s) = false
       /\ trim text <> EmptyString
       /\ url r = API_URL
       /\ requests (world (step s e)) = (requests (world s) ++ [r])%list.
Proof.
  destruct e as [su sa text| |k r].
  - destruct (isLoading (world s)) eqn:Hl.
    + left. now rewrite step_send_rejected.
    + destruct (trim text) eqn:Ht.
      * left. unfold Chat.step.
        now rewrite sendMessage_rejected by now left.
      * right. unfold Chat.step.
        rewrite sendMessage_accepted by (trivial; rewrite Ht; discriminate).
        exists su, sa, text,
          {| url := API_URL;
             body :=
               requestBody
                 (messages (world s)
                  ++ [createMessage su user text;
                      createMessage sa assistant EmptyString])%list text |}.
        repeat split. rewrite Ht. discriminate.
  - left. reflexivity.
  - left. unfold Chat.step.
    destruct (nth_error (tasks s) k) as [t|]; [|reflexivity].
    rewrite (surjective_pairing (resume t r (world s))). cbn [world].
    apply resume_requests.
Qed.

(** *** One call at a time *)

Lemma all_over l : Forall (fun t => over t = true) l -> active_calls l = 0.
Proof.
  induction 1 as [|t l Ht _ IH]; [reflexivity|].
  cbn [active_calls]. unfold weight. rewrite Ht, IH. reflexivity.
Qed.

(** X15. At any time at most one call of [sendMessage] is not over, and
    [isLoading] is true exactly when there is one. *)
Theorem one_call_at_a_time s :
  reachable s ->
  active_calls (tasks s) <= 1
  /\ (isLoading (world s) = true <-> active_calls (tasks s) = 1).
Proof.
  intros Hr. pose proof (balanced_reachable _ _ s Hr) as Hb.
  unfold balanced in Hb. rewrite Hb.
  destruct (isLoading (world s)); split; try lia; split; congruence.
Qed.

(** X16. The session never stays blocked: when no call is left that is
    not over, a text that is not blank is accepted. *)
Theorem idle_session_accepts s su sa text :
  reachable s ->
  Forall (fun t => over t = true) (tasks s) ->
  trim text <> EmptyString ->
  let s1 := step s (CallSend su sa text) in
  messages (world s1)
  = (messages (world s)
     ++ [createMessage su user text; createMessage sa assistant EmptyString])%list
  /\ isLoading (world s1) = true
  /\ tasks s1 = (tasks s ++ [AwaitingFetch (fresh_id sa)])%list.
Proof.
  intros Hr Hover Htext.
  pose proof (balanced_reachable _ _ s Hr) as Hb.
  unfold balanced in Hb. rewrite (all_over _ Hover) in Hb.
  assert (Hl : isLoading (world s) = false)
    by (destruct (isLoading (world s)); [discriminate|reflexivity]).
  cbn zeta. unfold Chat.step. rewrite sendMessage_accepted by trivial.
  repeat split.
Qed.

(** *** The conversation and the requests *)

Lemma role_of_frame ms : map role ms = map (fun f => snd (fst f)) (map frame ms).
Proof. rewrite map_map. reflexivity. Qed.

Lemma resume_roles t r w :
  map role (messages (fst (resume t r w))) = map role (messages w).
Proof.
  rewrite !role_of_frame. f_equal.
  destruct (assistantOf t) as [aid|] eqn:Ht.
  - destruct (resume_messages t r w aid Ht)
      as [E|(before & m & after & c & (E0 & _) & E)]; rewrite E; trivial.
    rewrite E0. apply map_frame_middle.
  - destruct t; try discriminate. now destruct r.
Qed.

Lemma requestBody_wellFormed ms text :
  Forall (fun r => r <> system) (map role ms) ->
  text <> EmptyString ->
  wellFormed {| url := API_URL; body := requestBody ms text |}.
Proof.
  intros Hroles Htext. split; [reflexivity|].
  eexists. split; [reflexivity|].
  apply Forall_app. split.
  - apply Forall_forall. intros x Hx.
    apply in_map_iff in Hx. destruct Hx as (m & <- & Hm).
    apply filter_In in Hm. destruct Hm as [Hm Hc].
    rewrite Forall_forall in Hroles. split.
    + apply Hroles. cbn [toWire wire_role]. now apply in_map.
    + cbn. intros E. rewrite E in Hc. discriminate.
  - repeat constructor; trivial. discriminate.
Qed.

Lemma sound_step s e : sound s -> sound (step s e).
Proof.
  intros [Hp Hr]. destruct e as [su sa text| |k r].
  - destruct (isLoading (world s)) eqn:Hl.
    { rewrite step_send_rejected by trivial. now split. }
    destruct (trim text) eqn:Ht.
    { unfold Chat.step. rewrite sendMessage_rejected by now left. now split. }
    assert (Htext : trim text <> EmptyString) by (rewrite Ht; discriminate).
    unfold Chat.step. rewrite sendMessage_accepted by trivial.
    assert (Hp' : paired (map role
                    (messages (world s)
                     ++ [createMessage su user text;
                         createMessage sa assistant EmptyString])%list) = true).
    { rewrite map_app. now rewrite paired_append. }
    split; cbn [world messages requests]; trivial.
    apply Forall_app. split; trivial. constructor; [|constructor].
    apply requestBody_wellFormed.
    + now apply paired_no_system.
    + intros E. rewrite E in Htext. now apply Htext.
  - split; [reflexivity|exact Hr].
  - unfold Chat.step.
    destruct (nth_error (tasks s) k) as [t|]; [|now split].
    rewrite (surjective_pairing (resume t r (world s))).
    unfold sound. cbn [world]. split.
    + now rewrite resume_roles.
    + now rewrite resume_requests.
Qed.

Lemma sound_reachable s : reachable s -> sound s.
Proof.
  intros (es & ->). induction es as [|e es IH] using rev_ind.
  - split; [reflexivity|constructor].
  - unfold Chat.run in *. rewrite fold_left_app. cbn [fold_left].
    now apply sound_step.
Qed.

(** X17. The conversation goes by pairs: at any time the messages are a
    user message followed by an assistant message, as many times as calls
    were accepted since the messages were last cleared. *)
Theorem messages_go_by_pairs s :
  reachable s -> paired (map role (messages (world s))) = true.
Proof. intros Hr. now destruct (sound_reachable s Hr). Qed.

(** X18. Every request that a session issues goes to the one endpoint, has
    the preamble as its first message and its only system message, and
    carries no message of empty content: the empty assistant message is
    never sent. *)
Theorem requests_are_well_formed s :
  reachable s -> Forall wellFormed (requests (world s)).
Proof. intros Hr. now destruct (sound_reachable s Hr). Qed.

End Session.

(** ** The statements at the sample session *)

Lemma reads_compose_witness :
  (let '(w1, t1) :=
     Chat.resume zeroLexeme asWritten (AwaitingRead "a1" newDecoder)
       (ReadValue (delta "Ol" ++ LF)) sent in
   Chat.resume zeroLexeme asWritten t1 (ReadValue (delta "á" ++ LF)) w1)
  = Chat.resume zeroLexeme asWritten (AwaitingRead "a1" newDecoder)
      (ReadValue ((delta "Ol" ++ LF) ++ (delta "á" ++ LF))) sent.
Proof.
  apply (reads_compose zeroLexeme asWritten "a1" newDecoder (delta "Ol" ++ LF)
           (delta "á" ++ LF) (delta "Ol") (fresh true) sent).
  - vm_compute. reflexivity.
  - vm_compute. reflexivity.
Defined.

Lemma reachable_midstream : reachable zeroLexeme asWritten midstream.
Proof. eexists. reflexivity. Defined.

Lemma reachable_afterFailure : reachable zeroLexeme asWritten afterFailure.
Proof. eexists. reflexivity. Defined.

Lemma resume_spares_others_witness :
  nth_error
    (messages
       (fst (Chat.resume zeroLexeme asWritten (AwaitingRead "a1" (fresh true))
               (ReadRejected "network error") partly))) 0
  = Some {| id := "u1"; role := user; content := "oi"; timestamp := 1 |}.
Proof.
  apply (resume_spares_others zeroLexeme asWritten
           (AwaitingRead "a1" (fresh true)) (ReadRejected "network error")
           partly "a1" 0).
  - reflexivity.
  - reflexivity.
  - discriminate.
Defined.

Lemma read_only_appends_witness :
  exists suffix,
    messages
      (fst (Chat.resume zeroLexeme asWritten (AwaitingRead "a1" (fresh true))
              (ReadValue (delta "á" ++ LF)) partly))
    = [{| id := "u1"; role := user; content := "oi"; timestamp := 1 |};
       {| id := "a1"; role := assistant; content := "Ol" ++ suffix;
          timestamp := 2 |}].
Proof.
  apply (read_only_appends zeroLexeme asWritten "a1" (fresh true)
           (delta "á" ++ LF) partly _ _ _ foundAt_partly).
Defined.

Lemma non_object_payload_ignored_witness :
  Chat.handleData zeroLexeme asWritten "a1" ("[" ++ quoted "Ol" ++ "]")
    (messages sent)
  = messages sent.
Proof.
  apply (non_object_payload_ignored zeroLexeme asWritten "a1"
           ("[" ++ quoted "Ol" ++ "]") (JArray [JString "Ol"]) (messages sent)).
  - reflexivity.
  - discriminate.
Defined.

Lemma error_logged_once_witness :
  (exists e,
     console
       (fst (Chat.resume zeroLexeme asWritten (AwaitingFetch "a1")
               (FetchResponse 503 false) sent))
     = (console sent ++ [e])%list
     /\ e = HttpError 503)
  /\ console
       (fst (Chat.resume zeroLexeme asWritten (AwaitingRead "a1" (fresh true))
               ReadDone partly))
     = console partly.
Proof.
  split.
  - destruct (proj1 (error_logged_once zeroLexeme asWritten (AwaitingFetch "a1")
                       (FetchResponse 503 false) sent) (or_introl eq_refl))
      as (e & He & Hp).
    exists e. split; [exact He|]. apply (Hp 503 false); reflexivity.
  - apply (proj2 (error_logged_once zeroLexeme asWritten
                    (AwaitingRead "a1" (fresh true)) ReadDone partly)).
    intros [].
Defined.

Lemma one_call_at_a_time_witness :
  active_calls (tasks midstream) <= 1
  /\ (isLoading (world midstream) = true <-> active_calls (tasks midstream) = 1).
Proof.
  apply (one_call_at_a_time zeroLexeme asWritten midstream reachable_midstream).
Defined.

Lemma idle_session_accepts_witness :
  let s1 :=
    Chat.step zeroLexeme asWritten afterFailure
      (CallSend stampU stampA "de novo") in
  messages (world s1)
  = (messages (world afterFailure)
     ++ [createMessage stampU user "de novo";
         createMessage stampA assistant EmptyString])%list
  /\ isLoading (world s1) = true
  /\ tasks s1 = (tasks afterFailure ++ [AwaitingFetch "a1"])%list.
Proof.
  apply (idle_session_accepts zeroLexeme asWritten afterFailure stampU stampA
           "de novo" reachable_afterFailure).
  - repeat constructor.
  - vm_compute. discriminate.
Defined.

Lemma messages_go_by_pairs_witness :
  paired (map role (messages (world midstream))) = true.
Proof.
  apply (messages_go_by_pairs zeroLexeme asWritten midstream reachable_midstream).
Defined.

Lemma requests_are_well_formed_witness :
  Forall wellFormed (requests (world midstream)).
Proof.
  apply (requests_are_well_formed zeroLexeme asWritten midstream
           reachable_midstream).
Defined.

End ChatMore.
